(** * email-unsub: mailbox scan, link extraction and link visiting

    A shallow embedding of [main.py].  The program has four parts:

    - [EmailProcessor._parse_html_for_links] and
      [EmailProcessor._extract_links_from_email] walk a parsed message and
      collect the unsubscribe links of its HTML parts;
    - [EmailProcessor.find_unsubscribe_links] drives an IMAP session
      (search, fetch, logout);
    - [LinkHandler.access_links] issues one GET per link through a
      [requests] session mounted with a [urllib3] retry strategy;
    - [EmailProcessor._establish_email_connection] and [main] set the
      connection up and run the scan and the visit one after the other.

    The libraries the program calls are outside the repository.  They enter
    the development as follows.

    - The HTML parser ([BeautifulSoup(markup, 'html.parser')]) is a section
      variable: every theorem holds for every parser.  Its result, the tree
      of page elements, is modelled concretely, together with the tree search
      [find_all].
    - A parsed e-mail ([email.message.Message]) is a tree of parts; the
      accessors the program uses ([is_multipart], [walk],
      [get_content_type], [get_payload(decode=True)], [len]) are functions
      on that tree.
    - [bytes.decode()] is the strict UTF-8 codec.
    - The IMAP server and the HTTP servers are the environment: records of
      answers, quantified over in the theorems.
    - The retry loop of the transport follows [urllib3.util.Retry] as the
      program configures it: [total] is the number of retries that may
      follow the first request, a status of [status_forcelist] is retried,
      and running out of retries raises (the [raise_on_status] default).
    - What the session does around a status is kept in the module
      [Transport]: the preparation of the URL, the redirects it follows,
      the retries on Retry-After, and the errors of the transport that
      [requests] does not wrap.
    - The defects that [get_payload(decode=True)] registers on a part are
      kept in the module [Registering]. *)

From Stdlib Require Import ZArith Lia.
From Stdlib Require Import Strings.String Strings.Ascii Strings.Byte.
From stdpp Require Import base option list strings gmap.

Set Warnings "-register-all".
Local Open Scope string_scope.
Local Open Scope list_scope.

(** ** Text: [str.lower] and the [in] operator on strings *)

Module Text.

(** A Python [str] is represented by its UTF-8 encoding, one [ascii] per
    byte.  [lower] folds the letters A-Z; the characters outside ASCII that
    [str.lower] also rewrites never produce a letter of the word searched
    for, so the membership test below is not affected by them. *)
Definition lower_char (c : ascii) : ascii :=
  let n := nat_of_ascii c in
  if (65 <=? n)%nat && (n <=? 90)%nat then ascii_of_nat (n + 32) else c.

Fixpoint lower (s : string) : string :=
  match s with
  | EmptyString => EmptyString
  | String c r => String (lower_char c) (lower r)
  end.

Fixpoint startswith (p s : string) : bool :=
  match p, s with
  | EmptyString, _ => true
  | String _ _, EmptyString => false
  | String a p', String b s' => if Ascii.eqb a b then startswith p' s' else false
  end.

(** [needle in hay] *)
Fixpoint contains (needle hay : string) : bool :=
  startswith needle hay ||
  match hay with
  | EmptyString => false
  | String _ r => contains needle r
  end.

(** The relation [contains] decides. *)
Definition Substring (needle hay : string) : Prop :=
  exists pre post, hay = pre +:+ needle +:+ post.

End Text.

(** ** Bytes: the strict UTF-8 codec behind [bytes.decode()] *)

Module Utf8.

Definition in_range (lo hi : N) (b : byte) : bool :=
  ((lo <=? Byte.to_N b) && (Byte.to_N b <=? hi))%N.

Definition cont (b : byte) : bool := in_range 0x80 0xBF b.

(** Second byte of a three-byte sequence: no overlong form after E0, no
    surrogate after ED. *)
Definition second3 (b0 b1 : byte) : bool :=
  if in_range 0xE0 0xE0 b0 then in_range 0xA0 0xBF b1
  else if in_range 0xED 0xED b0 then in_range 0x80 0x9F b1
  else cont b1.

(** Second byte of a four-byte sequence: no overlong form after F0, nothing
    above U+10FFFF after F4. *)
Definition second4 (b0 b1 : byte) : bool :=
  if in_range 0xF0 0xF0 b0 then in_range 0x90 0xBF b1
  else if in_range 0xF4 0xF4 b0 then in_range 0x80 0x8F b1
  else cont b1.

Fixpoint valid (bs : list byte) : bool :=
  match bs with
  | [] => true
  | b0 :: r0 =>
    if in_range 0x00 0x7F b0 then valid r0 else
    match r0 with
    | [] => false
    | b1 :: r1 =>
      if in_range 0xC2 0xDF b0 then cont b1 && valid r1 else
      match r1 with
      | [] => false
      | b2 :: r2 =>
        if in_range 0xE0 0xEF b0 then second3 b0 b1 && cont b2 && valid r2 else
        match r2 with
        | [] => false
        | b3 :: r3 =>
          in_range 0xF0 0xF4 b0 && second4 b0 b1 && cont b2 && cont b3 && valid r3
        end
      end
    end
  end.

End Utf8.

(** ** Exceptions and results *)

Inductive exn :=
| UnicodeDecodeError            (* bytes.decode() on bytes that are not UTF-8 *)
| TypeError                     (* BeautifulSoup(None) *)
| AttributeError                (* None.decode() *)
| IMAP4_error                   (* any failure of the IMAP session *)
| InvalidSchema                 (* requests: no adapter is mounted for the URL *)
| ConnectionError               (* requests: the connection failed, retries spent *)
| RetryError (status : Z)       (* requests: retryable status, retries spent *)
| MissingSchema                 (* requests: the URL has no scheme *)
| InvalidURL                    (* requests: the URL has no host, or cannot be parsed *)
| TooManyRedirects              (* requests: more than 30 redirects in a row *)
| LocationParseError.           (* urllib3: the host cannot be connected to as written *)

(** [except requests.RequestException] *)
Definition is_RequestException (e : exn) : bool :=
  match e with
  | InvalidSchema | ConnectionError | RetryError _
  | MissingSchema | InvalidURL | TooManyRedirects => true
  | _ => false
  end.

Inductive Result (A : Type) :=
| Ok (a : A)
| Raise (e : exn).
Arguments Ok {A} a.
Arguments Raise {A} e.

Definition bind_result {A B} (r : Result A) (k : A -> Result B) : Result B :=
  match r with
  | Ok a => k a
  | Raise e => Raise e
  end.

(** [b.decode()]: default codec UTF-8, error handler [strict]. *)
Definition bytes_decode (b : list byte) : Result string :=
  if Utf8.valid b then Ok (string_of_list_byte b) else Raise UnicodeDecodeError.

(** ** The parsed HTML document *)

(** What [BeautifulSoup] builds: text nodes and tags; a tag has a name, a
    dictionary of attributes and its children in document order.  The
    [BeautifulSoup] object itself is the root tag. *)
Inductive PageElement :=
| NavigableString (text : string)
| Tag (name : string) (attrs : gmap string string) (contents : list PageElement).

(** [tag.descendants]: every element below [e], in document order. *)
Fixpoint descendants (e : PageElement) : list PageElement :=
  match e with
  | NavigableString _ => []
  | Tag _ _ cs => concat (map (fun c => c :: descendants c) cs)
  end.

Definition tag_name (e : PageElement) : option string :=
  match e with
  | NavigableString _ => None
  | Tag n _ _ => Some n
  end.

(** [tag.get(key)] *)
Definition tag_get (e : PageElement) (key : string) : option string :=
  match e with
  | NavigableString _ => None
  | Tag _ a _ => a !! key
  end.

(** [soup.find_all('a', href=True)]: the descendants that are [a] tags and
    carry an [href] attribute, whatever its value. *)
Definition find_all_a_href (soup : PageElement) : list PageElement :=
  List.filter
    (fun e => bool_decide (tag_name e = Some "a") && bool_decide (is_Some (tag_get e "href")))
    (descendants soup).

(** The argument of [BeautifulSoup(...)]: the program passes [bytes] from
    the multi-part branch and [str] from the single-part branch. *)
Inductive markup :=
| MarkupBytes (b : list byte)
| MarkupStr (s : string).

(** ** The parsed e-mail *)

(** What [email.message_from_bytes] builds.  A part whose payload is a list
    of sub-parts is a container; the parser builds one only for a part whose
    content type has main type [multipart] or [message].  Every other part
    is a leaf:

    - [ctype] is what [get_content_type()] reads from the Content-Type
      header, [None] when the part has no such header (the default type
      [text/plain] then applies);
    - [others] counts the remaining header lines;
    - [payload] is what [get_payload(decode=True)] returns, the body after
      its transfer encoding has been undone. *)
Inductive maintype := multipart | message.

Inductive Message :=
| Leaf (ctype : option string) (others : nat) (payload : list byte)
| Container (mt : maintype) (subtype : string) (parts : list Message).

Definition maintype_name (mt : maintype) : string :=
  match mt with
  | multipart => "multipart"
  | message => "message"
  end.

Definition is_multipart (msg : Message) : bool :=
  match msg with
  | Leaf _ _ _ => false
  | Container _ _ _ => true
  end.

Definition get_content_type (msg : Message) : string :=
  match msg with
  | Leaf (Some c) _ _ => c
  | Leaf None _ _ => "text/plain"
  | Container mt sub _ => maintype_name mt +:+ "/" +:+ sub
  end.

(** [msg.get_payload(decode=True)]; [None] on a container. *)
Definition get_payload_decode (msg : Message) : option (list byte) :=
  match msg with
  | Leaf _ _ p => Some p
  | Container _ _ _ => None
  end.

(** [msg.walk()]: the part itself, then its sub-parts, depth first. *)
Fixpoint walk (msg : Message) : list Message :=
  msg ::
  match msg with
  | Leaf _ _ _ => []
  | Container _ _ ps => concat (map walk ps)
  end.

(** [len(msg)], the number of header lines.  Of a container only the
    Content-Type header that made the parser build it is counted: the truth
    test below asks no more than whether there is a header. *)
Definition Message_len (msg : Message) : nat :=
  match msg with
  | Leaf (Some _) n _ => S n
  | Leaf None n _ => n
  | Container _ _ _ => 1
  end.

(** Truth value of a message object in [if msg:].  [Message] defines
    [__len__] and no [__bool__], so a message without any header line is
    false. *)
Definition Message_bool (msg : Message) : bool := negb (Message_len msg =? 0)%nat.

Section EmailProcessor.

(** [BeautifulSoup(markup, 'html.parser')] *)
Variable BeautifulSoup : markup -> PageElement.

(** The list comprehension of [_parse_html_for_links].  [link['href']]
    cannot raise [KeyError]: [find_all] kept only tags that carry the
    attribute ([find_all_a_href_has_href] below). *)
Definition unsubscribe_hrefs (found : list PageElement) : list string :=
  omap (fun link =>
          match tag_get link "href" with
          | Some href =>
              if Text.contains "unsubscribe" (Text.lower href) then Some href else None
          | None => None
          end) found.

Definition _parse_html_for_links (html_content : markup) : list string :=
  let soup := BeautifulSoup html_content in
  unsubscribe_hrefs (find_all_a_href soup).

(** The [for part in msg.walk()] loop of [_extract_links_from_email], with
    the local list [unsubscribe_links] as accumulator.  A part of type
    [text/html] without a byte payload would make [BeautifulSoup] raise;
    no part is such ([container_not_html] below). *)
Fixpoint extract_loop (parts : list Message) (unsubscribe_links : list string)
  : Result (list string) :=
  match parts with
  | [] => Ok unsubscribe_links
  | part :: rest =>
      if String.eqb (get_content_type part) "text/html" then
        match get_payload_decode part with
        | Some html_content =>
            extract_loop rest
              (unsubscribe_links ++ _parse_html_for_links (MarkupBytes html_content))
        | None => Raise TypeError
        end
      else extract_loop rest unsubscribe_links
  end.

Definition _extract_links_from_email (msg : Message) : Result (list string) :=
  let unsubscribe_links := [] in
  if is_multipart msg then
    extract_loop (walk msg) unsubscribe_links
  else
    match get_payload_decode msg with
    | None => Raise AttributeError
    | Some raw =>
        bind_result (bytes_decode raw) (fun content =>
        if String.eqb (get_content_type msg) "text/html" then
          Ok (unsubscribe_links ++ _parse_html_for_links (MarkupStr content))
        else Ok unsubscribe_links)
    end.

End EmailProcessor.

(** ** Effects: the session traffic and the log *)

(** One constructor per [logging] call of the program that the properties
    below read. *)
Inductive LogRecord :=
| LogFetchFailed (email_id : string)              (* error: Failed to fetch email ID *)
| LogTotal (n : nat)                              (* info: Total unsubscribe links found *)
| LogLoggedOut                                    (* info: Logged out from the email server *)
| LogAccessed (link : string)                     (* info: Successfully accessed *)
| LogFailedStatus (link : string) (status : Z)    (* warning: Failed to access (Status) *)
| LogAccessError (link : string) (e : exn).       (* error: Error accessing link *)

(** What the program does to the outside, in the order it does it. *)
Inductive Event :=
| IMAP_search
| IMAP_fetch (email_id : string)
| IMAP_logout
| HTTP_get (url : string)
| Logged (r : LogRecord).

Definition World := list Event.

(** Computations that append to the world and may raise. *)
Definition M (A : Type) : Type := World -> Result A * World.

Definition ret {A} (a : A) : M A := fun w => (Ok a, w).

Definition raise {A} (e : exn) : M A := fun w => (Raise e, w).

Definition bind {A B} (m : M A) (k : A -> M B) : M B :=
  fun w =>
    match m w with
    | (Ok a, w') => k a w'
    | (Raise e, w') => (Raise e, w')
    end.

Definition lift {A} (r : Result A) : M A := fun w => (r, w).

Definition emit (e : Event) : M unit := fun w => (Ok tt, (w ++ [e])).

Definition log (r : LogRecord) : M unit := emit (Logged r).

(** [try: body finally: fin].  The clean-up runs on every exit of the body;
    an exception of the clean-up replaces the body's result. *)
Definition try_finally {A} (body : M A) (fin : M unit) : M A :=
  fun w =>
    let '(r, w1) := body w in
    match fin w1 with
    | (Ok _, w2) => (r, w2)
    | (Raise e, w2) => (Raise e, w2)
    end.

(** [try: body except C as e: handler e] *)
Definition try_except {A} (body : M A) (C : exn -> bool) (handler : exn -> M A) : M A :=
  fun w =>
    match body w with
    | (Ok a, w1) => (Ok a, w1)
    | (Raise e, w1) => if C e then handler e w1 else (Raise e, w1)
    end.

#[global] Instance M_ret : MRet M := @ret.
#[global] Instance M_bind : MBind M := fun A B k m => bind m k.

(** ** The IMAP session *)

(** The answers of the server to the three calls the scan makes.

    - [search]: the identifiers [search_data[0].split()] of the matching
      messages, or the exception the call raises;
    - [fetch]: the message the [try] block of [_fetch_email_data] builds,
      [None] when anything in that block raised;
    - [logout]: whether [mail.logout()] returns or raises. *)
Record IMAP4_SSL := {
  search : Result (list string);
  fetch : string -> option Message;
  logout : Result unit
}.

Section MailboxScanner.

Variable BeautifulSoup : markup -> PageElement.
Variable mail : IMAP4_SSL.

Definition _fetch_email_data (email_id : string) : M (option Message) :=
  emit (IMAP_fetch email_id) ;;
  match fetch mail email_id with
  | Some msg => ret (Some msg)
  | None => log (LogFetchFailed email_id) ;; ret None
  end.

(** The [for email_id in email_ids] loop of [find_unsubscribe_links]. *)
Fixpoint scan_loop (email_ids : list string) (unsubscribe_links : list string)
  : M (list string) :=
  match email_ids with
  | [] => ret unsubscribe_links
  | email_id :: rest =>
      msg ← _fetch_email_data email_id;
      match msg with
      | Some m =>
          if Message_bool m then
            links ← lift (_extract_links_from_email BeautifulSoup m);
            scan_loop rest (unsubscribe_links ++ links)
          else scan_loop rest unsubscribe_links
      | None => scan_loop rest unsubscribe_links
      end
  end.

Definition find_unsubscribe_links : M (list string) :=
  try_finally
    (emit IMAP_search ;;
     email_ids ← lift (search mail);
     unsubscribe_links ← scan_loop email_ids [];
     log (LogTotal (length unsubscribe_links)) ;;
     ret unsubscribe_links)
    (emit IMAP_logout ;;
     lift (logout mail) ;;
     log LogLoggedOut).

End MailboxScanner.

(** ** The HTTP session *)

(** One request either gets a response, of which the program reads the
    status code only, or fails below HTTP (connection, read, time-out).  A
    response is its status code: the headers by which the transport itself
    would follow a redirect or obey a Retry-After are not modelled. *)
Inductive Attempt :=
| Responds (status_code : Z)
| Fails.

(** The servers: the answer to a request for [url], given the requests
    issued so far. *)
Definition Network := list string -> string -> Attempt.

Definition requests_of (w : World) : list string :=
  omap (fun e => match e with HTTP_get u => Some u | _ => None end) w.

(** [Retry(total=retries, backoff_factor=..., status_forcelist=[...])].  The
    back-off factor only sets the pause between two requests and is left
    out. *)
Record Retry := {
  total : nat;
  status_forcelist : list Z
}.

(** [HTTPAdapter(max_retries=retry_strategy)] *)
Record HTTPAdapter := { max_retries : Retry }.

(** A [requests.Session]: the adapters it has mounted, by URL prefix. *)
Record Session := { adapters : list (string * HTTPAdapter) }.

(** [requests.Session()]: both prefixes are mounted, with an adapter that
    does not retry. *)
Definition new_Session : Session :=
  let adapter := {| max_retries := {| total := 0; status_forcelist := [] |} |} in
  {| adapters := [("https://", adapter); ("http://", adapter)] |}.

(** [session.mount(prefix, adapter)] *)
Definition mount (prefix : string) (adapter : HTTPAdapter) (session : Session) : Session :=
  {| adapters :=
       (prefix, adapter) ::
       List.filter (fun pa => negb (String.eqb (fst pa) prefix)) (adapters session) |}.

(** [session.get_adapter(url)]: the adapter of a prefix the lower-cased URL
    starts with.  A link under no mounted prefix is refused before any
    request is made. *)
Definition get_adapter (session : Session) (url : string) : Result HTTPAdapter :=
  match List.find (fun pa => Text.startswith (Text.lower (fst pa)) (Text.lower url))
                  (adapters session) with
  | Some pa => Ok (snd pa)
  | None => Raise InvalidSchema
  end.

Definition _setup_session (retries : nat) : Session :=
  let session := new_Session in
  let retry_strategy :=
    {| total := retries;
       status_forcelist := [429; 500; 502; 503; 504]%Z |} in
  let adapter := {| max_retries := retry_strategy |} in
  let session := mount "https://" adapter session in
  let session := mount "http://" adapter session in
  session.

(** [LinkHandler(retries=3, backoff_factor=0.3)] *)
Definition LinkHandler (retries : nat) : Session := _setup_session retries.
Definition default_retries : nat := 3.

Section LinkHandler.

Variable net : Network.

Definition send_request (url : string) : M Attempt :=
  fun w => (Ok (net (requests_of w) url), (w ++ [HTTP_get url])).

(** [Retry.is_retry] for a GET whose response carries a bare status. *)
Definition is_retry (forcelist : list Z) (status : Z) : bool :=
  bool_decide (status ∈ forcelist).

(** The request loop of the transport: [total] retries are left.  A failed
    or retryable attempt uses one up; when none is left the loop raises. *)
Fixpoint urlopen (forcelist : list Z) (total : nat) (url : string) : M Z :=
  r ← send_request url;
  match r with
  | Responds status =>
      if is_retry forcelist status then
        match total with
        | O => raise (RetryError status)
        | S remaining => urlopen forcelist remaining url
        end
      else ret status
  | Fails =>
      match total with
      | O => raise ConnectionError
      | S remaining => urlopen forcelist remaining url
      end
  end.

(** [session.get(link, timeout=10)], returning [response.status_code]. *)
Definition session_get (session : Session) (link : string) : M Z :=
  adapter ← lift (get_adapter session link);
  let retry := max_retries adapter in
  urlopen (status_forcelist retry) (total retry) link.

(** The body of the [for link in links] loop of [access_links]. *)
Definition access_link (session : Session) (link : string) : M unit :=
  try_except
    (status_code ← session_get session link;
     if (status_code =? 200)%Z then log (LogAccessed link)
     else log (LogFailedStatus link status_code))
    is_RequestException
    (fun e => log (LogAccessError link e)).

Fixpoint access_links (session : Session) (links : list string) : M unit :=
  match links with
  | [] => ret tt
  | link :: rest => access_link session link ;; access_links session rest
  end.

End LinkHandler.

(** ** Reading the trace *)

(** The per-link result the three log calls of [access_links] report. *)
Inductive RetrievalOutcome :=
| Success
| HTTPFailure (status : Z)
| NetworkFailure (e : exn).

Definition outcome_of (e : Event) : option (string * RetrievalOutcome) :=
  match e with
  | Logged (LogAccessed link) => Some (link, Success)
  | Logged (LogFailedStatus link status) => Some (link, HTTPFailure status)
  | Logged (LogAccessError link e) => Some (link, NetworkFailure e)
  | _ => None
  end.

Definition outcomes (t : World) : list (string * RetrievalOutcome) := omap outcome_of t.

(** Number of requests for [url] in a trace. *)
Definition attempts (url : string) (t : World) : nat :=
  length (List.filter (String.eqb url) (requests_of t)).

(** Number of [mail.logout()] calls in a trace. *)
Definition logouts (t : World) : nat :=
  length (List.filter (fun e => match e with IMAP_logout => true | _ => false end) t).

(** ** The HTTP session, with what it does around a status *)

(** [session_get] above reads a response as its status code and a link as
    the URL requested.  The session does more than that around one
    [session.get(link)]: it prepares the URL, follows redirects, obeys
    Retry-After, and lets some errors of the transport through as they are.
    The module keeps these; [session_get] is its restriction to links that
    are requested as written and to responses without headers
    ([access_links_bare] below). *)
Module Transport.

(** What the session reads of a response: the status, the target of the
    [Location] header (the URL the session would request next, resolved
    against the one just requested) and whether a [Retry-After] header is
    there. *)
Record Response := {
  status_code : Z;
  location : option string;
  retry_after : bool
}.

(** One attempt of the transport:
    - it gets a response;
    - it fails in a way the transport retries (connection, read,
      time-out);
    - it raises an error the transport neither retries nor wraps, which
      [requests] passes on as it is: [LocationParseError] for a host such
      as [a..b]. *)
Inductive Attempt :=
| Answers (r : Response)
| Fails
| Breaks (e : exn).

Definition Network := list string -> string -> Attempt.

(** [Retry.RETRY_AFTER_STATUS_CODES] *)
Definition RETRY_AFTER_STATUS_CODES : list Z := [413; 429; 503]%Z.

(** [Retry.is_retry] for a GET, with [remaining] retries left: a status of
    the force list, or, while a retry is left, a status that may carry
    Retry-After and does. *)
Definition is_retry (forcelist : list Z) (remaining : nat) (r : Response) : bool :=
  bool_decide (status_code r ∈ forcelist)
  || (negb (remaining =? 0)%nat && retry_after r
      && bool_decide (status_code r ∈ RETRY_AFTER_STATUS_CODES)).

(** [Response.is_redirect], giving the target: a [Location] header under a
    redirect status. *)
Definition redirect_target (r : Response) : option string :=
  if bool_decide (status_code r ∈ [301; 302; 303; 307; 308]%Z) then location r else None.

(** [Session.max_redirects] *)
Definition max_redirects : nat := 30.

Section Session.

(** [PreparedRequest.prepare_url]: the URL the session requests for a link
    (leading white space stripped, the parts quoted), or the exception it
    raises for a link it refuses. *)
Variable prepare_url : string -> Result string.

Variable net : Network.

Definition send_request (url : string) : M Attempt :=
  fun w => (Ok (net (requests_of w) url), w ++ [HTTP_get url]).

(** The request loop of the transport, with [remaining] retries left. *)
Fixpoint urlopen (forcelist : list Z) (remaining : nat) (url : string) : M Response :=
  a ← send_request url;
  match a with
  | Answers r =>
      if is_retry forcelist remaining r then
        match remaining with
        | O => raise (RetryError (status_code r))
        | S fewer => urlopen forcelist fewer url
        end
      else ret r
  | Fails =>
      match remaining with
      | O => raise ConnectionError
      | S fewer => urlopen forcelist fewer url
      end
  | Breaks e => raise e
  end.

(** [Session.send] for one URL: the adapter of the URL, then its request
    loop with the retries of the adapter. *)
Definition send (session : Session) (url : string) : M Response :=
  adapter ← lift (get_adapter session url);
  let retry := max_retries adapter in
  urlopen (status_forcelist retry) (total retry) url.

(** [Session.resolve_redirects]: a redirect is followed, each hop through
    [send] with the retries of its adapter anew; [allowed] redirects may
    still be followed. *)
Fixpoint resolve_redirects (session : Session) (allowed : nat) (resp : Response)
  : M Response :=
  match redirect_target resp with
  | None => ret resp
  | Some url =>
      match allowed with
      | O => raise TooManyRedirects
      | S fewer =>
          next ← send session url;
          resolve_redirects session fewer next
      end
  end.

(** [session.get(link, timeout=10)], returning [response.status_code]. *)
Definition session_get (session : Session) (link : string) : M Z :=
  url ← lift (prepare_url link);
  resp ← send session url;
  final ← resolve_redirects session max_redirects resp;
  ret (status_code final).

(** The body of the [for link in links] loop of [access_links]. *)
Definition access_link (session : Session) (link : string) : M unit :=
  try_except
    (status_code ← session_get session link;
     if (status_code =? 200)%Z then log (LogAccessed link)
     else log (LogFailedStatus link status_code))
    is_RequestException
    (fun e => log (LogAccessError link e)).

Fixpoint access_links (session : Session) (links : list string) : M unit :=
  match links with
  | [] => ret tt
  | link :: rest => access_link session link ;; access_links session rest
  end.

End Session.

(** A response without headers. *)
Definition bare_response (status : Z) : Response :=
  {| status_code := status; location := None; retry_after := false |}.

End Transport.

(** A network of responses without headers. *)
Definition bare_network (net : Network) : Transport.Network :=
  fun h url =>
    match net h url with
    | Responds status => Transport.Answers (Transport.bare_response status)
    | Fails => Transport.Fails
    end.

(** ** The defects a part collects *)

(** [get_payload(decode=True)] is not only a read.  When the body of a part
    is base64 and malformed, undoing the transfer encoding finds defects,
    and every call registers them anew on the part, in its [defects] list.
    [_extract_links_from_email] above reads the payload and leaves the
    lists out; the module keeps them: its functions are those of
    [EmailProcessor], with the registrations threaded through. *)
Inductive Defect :=
| InvalidBase64PaddingDefect
| InvalidBase64CharactersDefect
| InvalidBase64LengthDefect.

(** The [defects] lists of the parts of a message: the registrations, oldest
    first, each with the part it was made on. *)
Definition Defects := list (Message * Defect).

Module Registering.

Section Extraction.

Variable BeautifulSoup : markup -> PageElement.

(** What undoing the transfer encoding of the body of a part finds wrong
    with it: nothing for a body that is well formed, or not base64. *)
Variable decode_defects : Message -> list Defect.

(** [part.get_payload(decode=True)]: a container returns [None] at once; a
    leaf returns its payload and registers the defects of its body. *)
Definition get_payload (part : Message) (d : Defects) : option (list byte) * Defects :=
  match part with
  | Container _ _ _ => (None, d)
  | Leaf _ _ payload => (Some payload, d ++ map (pair part) (decode_defects part))
  end.

Fixpoint extract_loop (parts : list Message) (unsubscribe_links : list string)
    (d : Defects) : Result (list string) * Defects :=
  match parts with
  | [] => (Ok unsubscribe_links, d)
  | part :: rest =>
      if String.eqb (get_content_type part) "text/html" then
        match get_payload part d with
        | (Some html_content, d1) =>
            extract_loop rest
              (unsubscribe_links
                 ++ _parse_html_for_links BeautifulSoup (MarkupBytes html_content)) d1
        | (None, d1) => (Raise TypeError, d1)
        end
      else extract_loop rest unsubscribe_links d
  end.

Definition _extract_links_from_email (msg : Message) (d : Defects)
  : Result (list string) * Defects :=
  let unsubscribe_links := [] in
  if is_multipart msg then
    extract_loop (walk msg) unsubscribe_links d
  else
    match get_payload msg d with
    | (None, d1) => (Raise AttributeError, d1)
    | (Some raw, d1) =>
        (bind_result (bytes_decode raw) (fun content =>
           if String.eqb (get_content_type msg) "text/html" then
             Ok (unsubscribe_links
                   ++ _parse_html_for_links BeautifulSoup (MarkupStr content))
           else Ok unsubscribe_links),
         d1)
    end.

End Extraction.

End Registering.

(** ** Start-up and the whole run *)

(** The module-level settings read from the environment; [os.getenv] gives
    [None] for a variable that is not set. *)
Record Environment := {
  EMAIL_USERNAME : option string;
  EMAIL_PASSWORD : option string
}.

Definition IMAP_SERVER : string := "imap.gmail.com".

(** What [_establish_email_connection] and [main] do to the outside, beside
    the events of the scan and of the visit. *)
Inductive SetupEvent :=
| IMAP_connect (host : string)                  (* imaplib.IMAP4_SSL(host) *)
| IMAP_login (user password : option string)    (* mail.login(user, password) *)
| IMAP_select (mailbox : string)                (* mail.select(mailbox) *)
| LogConnected                (* info: Successfully connected to the email inbox *)
| LogConnectFailed (e : exn)  (* error: Failed to connect to the email server *)
| LogNoLinks.                 (* info: No unsubscribe links found *)

(** The trace of a whole run. *)
Definition Process := list (SetupEvent + Event).

(** The answers of the mail server while the connection is set up, and the
    session it then serves. *)
Record IMAP_server := {
  connect : string -> Result unit;
  login : option string -> option string -> Result unit;
  select : string -> Result unit;
  mailbox_session : IMAP4_SSL
}.

(** Computations of the whole run. *)
Definition P (A : Type) : Type := Process -> Result A * Process.

#[global] Instance P_ret : MRet P := fun A a p => (Ok a, p).
#[global] Instance P_bind : MBind P := fun A B k m p =>
  match m p with
  | (Ok a, p') => k a p'
  | (Raise e, p') => (Raise e, p')
  end.

Definition setup (e : SetupEvent) : P unit := fun p => (Ok tt, p ++ [inl e]).

Definition answer {A} (r : Result A) : P A := fun p => (r, p).

(** The scan and visit events of a run. *)
Definition events_of (p : Process) : World :=
  omap (fun e => match e with inr x => Some x | inl _ => None end) p.

(** A step of the scan or of the visit, as a step of the run: it sees the
    events so far and its new events are appended. *)
Definition in_M {A} (m : M A) : P A :=
  fun p =>
    let w := events_of p in
    let '(r, w1) := m w in
    (r, p ++ map inr (drop (length w) w1)).

(** [except imaplib.IMAP4.error] *)
Definition is_IMAP4_error (e : exn) : bool :=
  match e with
  | IMAP4_error => true
  | _ => false
  end.

Definition _establish_email_connection (env : Environment) (server : IMAP_server)
  : P IMAP4_SSL :=
  fun p =>
    match
      (setup (IMAP_connect IMAP_SERVER) ;;
       answer (connect server IMAP_SERVER) ;;
       setup (IMAP_login (EMAIL_USERNAME env) (EMAIL_PASSWORD env)) ;;
       answer (login server (EMAIL_USERNAME env) (EMAIL_PASSWORD env)) ;;
       setup (IMAP_select "inbox") ;;
       answer (select server "inbox") ;;
       setup LogConnected ;;
       mret (mailbox_session server)) p
    with
    | (Ok mail, p1) => (Ok mail, p1)
    | (Raise e, p1) =>
        if is_IMAP4_error e then (Raise e, p1 ++ [inl (LogConnectFailed e)])
        else (Raise e, p1)
    end.

(** [EmailProcessor()]: [__init__] keeps the session as [self.mail]. *)
Definition EmailProcessor_init (env : Environment) (server : IMAP_server) : P IMAP4_SSL :=
  _establish_email_connection env server.

Definition main (BeautifulSoup : markup -> PageElement) (env : Environment)
    (server : IMAP_server) (net : Network) : P unit :=
  email_processor ← EmailProcessor_init env server;
  unsubscribe_links ← in_M (find_unsubscribe_links BeautifulSoup email_processor);
  match unsubscribe_links with
  | _ :: _ =>
      let link_handler := LinkHandler default_retries in
      in_M (access_links net link_handler unsubscribe_links)
  | [] => setup LogNoLinks
  end.

(** [main], with the session of [Transport] for the visit. *)
Module Run.

Definition main (BeautifulSoup : markup -> PageElement) (env : Environment)
    (server : IMAP_server) (prepare_url : string -> Result string)
    (net : Transport.Network) : P unit :=
  email_processor ← EmailProcessor_init env server;
  unsubscribe_links ← in_M (find_unsubscribe_links BeautifulSoup email_processor);
  match unsubscribe_links with
  | _ :: _ =>
      let link_handler := LinkHandler default_retries in
      in_M (Transport.access_links prepare_url net link_handler unsubscribe_links)
  | [] => setup LogNoLinks
  end.

End Run.

(** * Vocabulary of the properties *)

(** The links the session has an adapter for. *)
Definition is_http (link : string) : bool :=
  Text.startswith "http://" (Text.lower link)
  || Text.startswith "https://" (Text.lower link).

(** The links the specification asks for: non-empty, and with the word in
    the lower-cased form. *)
Definition is_unsubscribe_link (href : string) : Prop :=
  href <> "" /\ Text.Substring "unsubscribe" (Text.lower href).

(** [links_in_order es hs]: [hs] lists, in the order of [es], the [href]
    value of every element of [es] that is an [a] tag with a wanted [href];
    every other element is passed over. *)
Inductive links_in_order : list PageElement -> list string -> Prop :=
| lio_nil : links_in_order [] []
| lio_take (e : PageElement) (es : list PageElement) (href : string) (hs : list string) :
    tag_name e = Some "a" -> tag_get e "href" = Some href ->
    is_unsubscribe_link href ->
    links_in_order es hs -> links_in_order (e :: es) (href :: hs)
| lio_skip (e : PageElement) (es : list PageElement) (hs : list string) :
    (forall href, tag_name e = Some "a" -> tag_get e "href" = Some href ->
                  ~ is_unsubscribe_link href) ->
    links_in_order es hs -> links_in_order (e :: es) hs.

(** [Part_of p msg]: [p] is [msg] or a part nested in it, at any depth. *)
Inductive Part_of : Message -> Message -> Prop :=
| Part_self (msg : Message) : Part_of msg msg
| Part_sub (p : Message) (mt : maintype) (sub : string) (ps : list Message) (c : Message) :
    c ∈ ps -> Part_of p c -> Part_of p (Container mt sub ps).

(** The identifiers fetched, in the order of the calls. *)
Definition fetches_of (t : World) : list string :=
  omap (fun e => match e with IMAP_fetch i => Some i | _ => None end) t.

Section Vocabulary.

Variable BeautifulSoup : markup -> PageElement.
Variable mail : IMAP4_SSL.

(** The links one part contributes: those of its payload when its content
    type is [text/html], none otherwise. *)
Definition html_links (part : Message) : list string :=
  if String.eqb (get_content_type part) "text/html" then
    match get_payload_decode part with
    | Some b => _parse_html_for_links BeautifulSoup (MarkupBytes b)
    | None => []
    end
  else [].

(** The links a fetched message contributes to a scan that returns. *)
Definition links_of (msg : Message) : list string :=
  match _extract_links_from_email BeautifulSoup msg with
  | Ok links => links
  | Raise _ => []
  end.

(** The result of the loop as a function of the messages fetched. *)
Fixpoint scan_result (msgs : list Message) (acc : list string) : Result (list string) :=
  match msgs with
  | [] => Ok acc
  | m :: rest =>
      if Message_bool m then
        bind_result (_extract_links_from_email BeautifulSoup m)
          (fun links => scan_result rest (acc ++ links))
      else scan_result rest acc
  end.

(** What the [try] block returns. *)
Definition body_result : Result (list string) :=
  bind_result (search mail) (fun ids => scan_result (omap (fetch mail) ids) []).

End Vocabulary.

(** A parser that finds an empty document, for the closed examples. *)
Definition empty_document (_ : markup) : PageElement := Tag "[document]" ∅ [].

(** A parser that finds one anchor, for the closed examples. *)
Definition one_anchor (_ : markup) : PageElement :=
  Tag "[document]" ∅
    [Tag "a" {[ "href" := "https://x.com/unsubscribe?u=1" ]} [NavigableString "unsub"]].

(** [Element_of e root]: [e] is nested in [root], at any depth. *)
Inductive Element_of : PageElement -> PageElement -> Prop :=
| Element_child (e : PageElement) (n : string) (a : gmap string string)
    (cs : list PageElement) :
    e ∈ cs -> Element_of e (Tag n a cs)
| Element_deeper (e c : PageElement) (n : string) (a : gmap string string)
    (cs : list PageElement) :
    c ∈ cs -> Element_of e c -> Element_of e (Tag n a cs).

(** The identifiers whose fetch failure was logged, in order. *)
Definition failed_fetches_of (t : World) : list string :=
  omap (fun e => match e with Logged (LogFetchFailed i) => Some i | _ => None end) t.

(** The totals logged at the end of a scan. *)
Definition totals_of (t : World) : list nat :=
  omap (fun e => match e with Logged (LogTotal n) => Some n | _ => None end) t.

(** The calls on the IMAP session. *)
Definition is_IMAP_call (e : Event) : bool :=
  match e with
  | IMAP_search | IMAP_fetch _ | IMAP_logout => true
  | _ => false
  end.



Section ScanTrace.

Variable BeautifulSoup : markup -> PageElement.
Variable mail : IMAP4_SSL.

(** What the loop of the scan does to the world: one fetch per identifier,
    a log line after a failed one, and nothing after an extraction that
    raises. *)
Fixpoint scan_trace (email_ids : list string) : World :=
  match email_ids with
  | [] => []
  | email_id :: rest =>
      IMAP_fetch email_id ::
      match fetch mail email_id with
      | None => Logged (LogFetchFailed email_id) :: scan_trace rest
      | Some m =>
          if Message_bool m then
            match _extract_links_from_email BeautifulSoup m with
            | Ok _ => scan_trace rest
            | Raise _ => []
            end
          else scan_trace rest
      end
  end.

(** What the [try] block does after the search call. *)
Definition body_trace : World :=
  match search mail with
  | Raise _ => []
  | Ok ids =>
      scan_trace ids ++
      match scan_result BeautifulSoup (omap (fetch mail) ids) [] with
      | Ok links => [Logged (LogTotal (length links))]
      | Raise _ => []
      end
  end.

(** What the [finally] block does. *)
Definition logout_trace : World :=
  IMAP_logout ::
  match logout mail with
  | Ok _ => [Logged LogLoggedOut]
  | Raise _ => []
  end.

End ScanTrace.

(** A session that answers like [mail], except that a fetch that yields a
    message without header lines fails. *)
Definition without_headerless (mail : IMAP4_SSL) : IMAP4_SSL :=
  {| search := search mail;
     fetch := fun i =>
       match fetch mail i with
       | Some m => if Message_bool m then Some m else None
       | None => None
       end;
     logout := logout mail |}.

(** What the three calls that set the connection up come to: the first
    exception, if one of them raises. *)
Definition connection_result (env : Environment) (server : IMAP_server) : Result unit :=
  bind_result (connect server IMAP_SERVER) (fun _ =>
  bind_result (login server (EMAIL_USERNAME env) (EMAIL_PASSWORD env)) (fun _ =>
  select server "inbox")).

(** The calls that set the connection up, in the order of the program. *)
Definition connection_calls (env : Environment) : Process :=
  [inl (IMAP_connect IMAP_SERVER);
   inl (IMAP_login (EMAIL_USERNAME env) (EMAIL_PASSWORD env));
   inl (IMAP_select "inbox")].

(** The last event of [w] is a request, and [a] is what the network did
    with it. *)
Definition last_attempt (net : Transport.Network) (w : World) (a : Transport.Attempt) : Prop :=
  exists before url, w = before ++ [HTTP_get url] /\ net (requests_of before) url = a.


(** The URLs a visit of [links] may ask for: the prepared URL of a link, or
    the target of a redirect some response carried. *)
Definition may_request (prepare_url : string -> Result string) (net : Transport.Network)
    (links : list string) (url : string) : Prop :=
  (exists link, link ∈ links /\ prepare_url link = Ok url)
  \/ (exists h u r, net h u = Transport.Answers r /\ Transport.redirect_target r = Some url).

(** The parts whose payload [_extract_links_from_email] asks for: the
    [text/html] parts of a multi-part message, the message itself when it
    is single-part. *)
Definition decoded_parts (msg : Message) : list Message :=
  if is_multipart msg then
    List.filter (fun part => String.eqb (get_content_type part) "text/html") (walk msg)
  else [msg].

(** The registrations one extraction makes. *)
Definition registered (decode_defects : Message -> list Defect) (msg : Message) : Defects :=
  concat (map (fun part => map (pair part) (decode_defects part)) (decoded_parts msg)).

(** * Properties *)

Ltac run_M :=
  unfold mbind, M_bind, mret, M_ret, bind, ret, raise, lift, log, emit,
         try_finally, try_except in *.


(** ** The substring test *)

Module TextFacts.
Import Text.

Lemma append_cons (a : ascii) (p r : string) :
  String a p +:+ r = String a (p +:+ r).
Proof. reflexivity. Qed.

Lemma startswith_spec (p s : string) :
  startswith p s = true <-> exists r, s = p +:+ r.
Proof.
  revert s. induction p as [|a p IH]; intros s; simpl.
  - split; [intros _; by exists s | done].
  - destruct s as [|b s].
    + split; [done | by intros [r Hr]].
    + destruct (Ascii.eqb_spec a b) as [->|Hab].
      * rewrite IH. split; intros [r Hr]; exists r; rewrite append_cons in *; congruence.
      * split; [done | intros [r Hr]; rewrite append_cons in Hr; congruence].
Qed.

Lemma contains_spec (needle hay : string) :
  contains needle hay = true <-> Substring needle hay.
Proof.
  induction hay as [|c hay IH]; simpl.
  - rewrite orb_false_r, startswith_spec. split.
    + intros [r Hr]. by exists "", r.
    + intros [[|? pre] [post H]]; [by exists post | done].
  - rewrite orb_true_iff, startswith_spec, IH. split.
    + intros [[r Hr] | [pre [post H]]].
      * by exists "", r.
      * exists (String c pre), post. by rewrite append_cons, H.
    + intros [[|c' pre] [post H]].
      * left. by exists post.
      * right. exists pre, post. rewrite append_cons in H. congruence.
Qed.

Lemma contains_nonempty (hay : string) :
  contains "unsubscribe" (lower hay) = true -> hay <> "".
Proof. by intros H ->. Qed.

End TextFacts.

(** ** Link extraction from a document *)

Lemma find_all_a_href_has_href (soup link : PageElement) :
  link ∈ find_all_a_href soup ->
  tag_name link = Some "a" /\ is_Some (tag_get link "href").
Proof.
  unfold find_all_a_href. rewrite list_elem_of_In, filter_In, andb_true_iff.
  intros [_ [H1 H2]]. split; by eapply bool_decide_eq_true_1.
Qed.

Lemma contains_unsubscribe_link (href : string) :
  Text.contains "unsubscribe" (Text.lower href) = true <-> is_unsubscribe_link href.
Proof.
  unfold is_unsubscribe_link. rewrite <- TextFacts.contains_spec. split.
  - intros H. split; [by apply TextFacts.contains_nonempty | done].
  - by intros [_ H].
Qed.

(** The comprehension over the tags [find_all] keeps selects, from any list
    of elements, the wanted links in order. *)
Lemma unsubscribe_hrefs_in_order (es : list PageElement) :
  links_in_order es
    (unsubscribe_hrefs
       (List.filter
          (fun e => bool_decide (tag_name e = Some "a")
                    && bool_decide (is_Some (tag_get e "href"))) es)).
Proof.
  induction es as [|e es IH]; [constructor|]. cbn [List.filter].
  destruct (bool_decide (tag_name e = Some "a")) eqn:Ha; cbn [andb].
  - apply bool_decide_eq_true_1 in Ha.
    destruct (bool_decide (is_Some (tag_get e "href"))) eqn:Hh.
    + apply bool_decide_eq_true_1 in Hh as [href Hh].
      unfold unsubscribe_hrefs. cbn [omap list_omap]. rewrite Hh.
      destruct (Text.contains "unsubscribe" (Text.lower href)) eqn:Hc.
      * apply lio_take; [done | done | by apply contains_unsubscribe_link | exact IH].
      * apply lio_skip; [|exact IH]. intros href' _ Hh' Hw.
        assert (href' = href) as -> by congruence.
        apply contains_unsubscribe_link in Hw. congruence.
    + apply bool_decide_eq_false_1 in Hh.
      apply lio_skip; [|exact IH]. intros href _ Hh' _. apply Hh. by exists href.
  - apply bool_decide_eq_false_1 in Ha.
    apply lio_skip; [|exact IH]. by intros href Hn _ _.
Qed.

(** The selection is determined by the list of elements. *)
Lemma links_in_order_unique (es : list PageElement) (hs hs' : list string) :
  links_in_order es hs -> links_in_order es hs' -> hs = hs'.
Proof.
  intros H. revert hs'. induction H as [|e es href hs Ha Hh Hw _ IH|e es hs Hno _ IH];
    intros hs' H'; inversion H' as [|e' es' href' hs0 Ha' Hh' Hw' Hrest|e' es' hs0 Hno' Hrest];
    subst.
  - done.
  - assert (href' = href) as -> by congruence. f_equal. by apply IH.
  - by destruct (Hno' href).
  - by destruct (Hno href').
  - by apply IH.
Qed.

(** C2.  For every parser and every document, [_parse_html_for_links]
    returns the selection, in document order, of the [href] values of the
    [a] elements that have a non-empty [href] whose lower-cased form
    contains "unsubscribe", and no other list is that selection; every link
    returned is such an [href] of an anchor of the document, so anchors
    without [href] and anchors whose [href] lacks the word contribute
    nothing. *)
Theorem parse_html_for_links_exact
    (BeautifulSoup : markup -> PageElement) (html_content : markup) :
  let soup := BeautifulSoup html_content in
  let links := _parse_html_for_links BeautifulSoup html_content in
  links_in_order (descendants soup) links
  /\ (forall hs, links_in_order (descendants soup) hs -> hs = links)
  /\ (forall link, link ∈ links ->
        is_unsubscribe_link link
        /\ exists a, a ∈ descendants soup
                     /\ tag_name a = Some "a" /\ tag_get a "href" = Some link).
Proof.
  intros soup links.
  assert (Hsel : links_in_order (descendants soup) links)
    by apply unsubscribe_hrefs_in_order.
  split; [exact Hsel|]. split.
  - intros hs Hhs. by eapply links_in_order_unique.
  - clear Hsel. intros link. subst links. unfold _parse_html_for_links, unsubscribe_hrefs.
    rewrite list_elem_of_omap. intros (a & Ha & Hl).
    pose proof (find_all_a_href_has_href _ _ Ha) as [Hn _].
    unfold find_all_a_href in Ha. rewrite list_elem_of_In, filter_In in Ha.
    destruct Ha as [Ha _]. fold soup in Ha.
    destruct (tag_get a "href") as [href|] eqn:Hh; [|done].
    destruct (Text.contains "unsubscribe" (Text.lower href)) eqn:Hc; [|done].
    injection Hl as <-. split; [by apply contains_unsubscribe_link|].
    exists a. by rewrite list_elem_of_In.
Qed.

(** The two links of a document with five anchors. *)
Example parse_html_for_links_example :
  _parse_html_for_links
    (fun _ =>
       Tag "[document]" ∅
         [Tag "p" ∅
            [Tag "a" {[ "href" := "https://x.com/unsubscribe?u=1" ]} [NavigableString "unsub"];
             Tag "a" ∅ [NavigableString "unsubscribe"];
             Tag "a" {[ "href" := "" ]} []];
          Tag "a" {[ "href" := "https://x.com/stay" ]} [NavigableString "keep"];
          Tag "a" {[ "href" := "https://x.com/UNSUBSCRIBE" ]} [NavigableString "stop"]])
    (MarkupStr "")
  = ["https://x.com/unsubscribe?u=1"; "https://x.com/UNSUBSCRIBE"].
Proof. vm_compute. reflexivity. Qed.

(** ** Parts of a message *)

Lemma Message_nested_ind (P : Message -> Prop) :
  (forall c o p, P (Leaf c o p)) ->
  (forall mt sub ps, Forall P ps -> P (Container mt sub ps)) ->
  forall msg, P msg.
Proof.
  intros HL HC. fix IH 1. intros [c o p|mt sub ps].
  - apply HL.
  - apply HC. induction ps as [|m ps IHps]; constructor; [apply IH | apply IHps].
Qed.

Lemma walk_self (msg : Message) : msg ∈ walk msg.
Proof. destruct msg; simpl; apply list_elem_of_here. Qed.

(** [walk] reaches exactly the parts of the message. *)
Lemma walk_parts (msg p : Message) : p ∈ walk msg <-> Part_of p msg.
Proof.
  split.
  - revert p. induction msg as [c o b|mt sub ps IH] using Message_nested_ind; intros p; simpl.
    + rewrite list_elem_of_singleton. intros ->. constructor.
    + rewrite elem_of_cons. intros [->|Hin]; [constructor|].
      apply list_elem_of_In, in_concat in Hin as (l & Hl & Hp).
      apply in_map_iff in Hl as (c & <- & Hc).
      apply list_elem_of_In in Hc, Hp.
      rewrite Forall_forall in IH.
      eapply Part_sub; [exact Hc | by apply IH].
  - induction 1 as [msg|p mt sub ps c Hc _ IH]; [apply walk_self|].
    simpl. apply list_elem_of_further, list_elem_of_In, in_concat.
    exists (walk c). split; [|by apply list_elem_of_In].
    apply in_map. by apply list_elem_of_In.
Qed.

(** A container is never of type [text/html]. *)
Lemma container_not_html (mt : maintype) (sub : string) (ps : list Message) :
  String.eqb (get_content_type (Container mt sub ps)) "text/html" = false.
Proof. by destruct mt. Qed.

Section LinkExtractor.

Variable BeautifulSoup : markup -> PageElement.

Lemma extract_loop_ok (parts : list Message) (acc : list string) :
  extract_loop BeautifulSoup parts acc
    = Ok (acc ++ concat (map (html_links BeautifulSoup) parts)).
Proof.
  revert acc. induction parts as [|part parts IH]; intros acc; simpl.
  - by rewrite app_nil_r.
  - unfold html_links at 1.
    destruct (String.eqb (get_content_type part) "text/html") eqn:E.
    + destruct part as [c o b|mt sub ps]; simpl.
      * by rewrite IH, <- app_assoc.
      * by rewrite container_not_html in E.
    + by rewrite IH.
Qed.

Lemma html_links_nil (parts : list Message) :
  (forall part, part ∈ parts -> get_content_type part <> "text/html") ->
  concat (map (html_links BeautifulSoup) parts) = [].
Proof.
  induction parts as [|part parts IH]; intros H; [done|]. simpl.
  rewrite IH by (intros q Hq; apply H; by apply list_elem_of_further).
  unfold html_links. destruct (String.eqb_spec (get_content_type part) "text/html") as [E|_].
  - destruct (H part); [apply list_elem_of_here | done].
  - done.
Qed.

Lemma extract_multipart (mt : maintype) (sub : string) (ps : list Message) :
  _extract_links_from_email BeautifulSoup (Container mt sub ps)
    = Ok (concat (map (html_links BeautifulSoup) (walk (Container mt sub ps)))).
Proof. unfold _extract_links_from_email. simpl is_multipart. by rewrite extract_loop_ok. Qed.

Lemma extract_single_part (c : option string) (o : nat) (payload : list byte) :
  _extract_links_from_email BeautifulSoup (Leaf c o payload)
    = bind_result (bytes_decode payload) (fun content =>
        if String.eqb (get_content_type (Leaf c o payload)) "text/html"
        then Ok (_parse_html_for_links BeautifulSoup (MarkupStr content))
        else Ok []).
Proof. reflexivity. Qed.

Lemma extract_undecodable (c : option string) (o : nat) (payload : list byte) :
  Utf8.valid payload = false ->
  _extract_links_from_email BeautifulSoup (Leaf c o payload) = Raise UnicodeDecodeError.
Proof. intros H. rewrite extract_single_part. unfold bytes_decode. by rewrite H. Qed.

End LinkExtractor.

(** ** Link extraction from a message *)

(** C8.  For every multi-part message, nested to any depth, extraction
    returns the links of every part of type [text/html] that [walk] reaches,
    in walk order; [walk] reaches every nested part; the links of every
    nested [text/html] leaf are in the result; and a multi-part message
    without a [text/html] part yields the empty list.  A single-part message
    that is not [text/html] does not always: its payload is decoded before
    its content type is looked at, so it yields the empty list when the
    payload is valid UTF-8 and raises [UnicodeDecodeError] when it is not,
    although the same part, as the only part of a multi-part message,
    yields the empty list whatever its payload. *)
Theorem extract_links_every_html_part (BeautifulSoup : markup -> PageElement) :
  (forall mt sub ps,
     let msg := Container mt sub ps in
     exists links,
       _extract_links_from_email BeautifulSoup msg = Ok links
       /\ links = concat (map (html_links BeautifulSoup) (walk msg))
       /\ (forall part, Part_of part msg -> part ∈ walk msg)
       /\ (forall o payload link,
             Part_of (Leaf (Some "text/html") o payload) msg ->
             link ∈ _parse_html_for_links BeautifulSoup (MarkupBytes payload) ->
             link ∈ links)
       /\ ((forall part, Part_of part msg -> get_content_type part <> "text/html") ->
             links = []))
  /\ (forall c o payload,
        get_content_type (Leaf c o payload) <> "text/html" ->
        _extract_links_from_email BeautifulSoup (Leaf c o payload)
        = (if Utf8.valid payload then Ok [] else Raise UnicodeDecodeError)
        /\ forall mt sub,
             _extract_links_from_email BeautifulSoup
               (Container mt sub [Leaf c o payload]) = Ok []).
Proof.
  split.
  - intros mt sub ps msg. eexists. split; [apply extract_multipart|].
    split; [done|]. split; [intros part; apply walk_parts|]. split.
    + intros o payload link Hp Hl. apply walk_parts in Hp.
      apply list_elem_of_In, in_concat.
      exists (html_links BeautifulSoup (Leaf (Some "text/html") o payload)). split.
      * apply in_map. by apply list_elem_of_In.
      * by apply list_elem_of_In.
    + intros H. apply html_links_nil. intros part Hp. by apply H, walk_parts.
  - intros c o payload Hc. split.
    + rewrite extract_single_part. unfold bytes_decode.
      destruct (Utf8.valid payload); [|done]. unfold bind_result.
      destruct (String.eqb_spec (get_content_type (Leaf c o payload)) "text/html")
        as [E|_]; [by destruct Hc | done].
    + intros mt sub. rewrite extract_multipart. f_equal. apply html_links_nil.
      intros part Hp. cbn [walk] in Hp.
      apply elem_of_cons in Hp as [->|Hp].
      * apply String.eqb_neq, container_not_html.
      * cbn in Hp. apply list_elem_of_singleton in Hp as ->. exact Hc.
Qed.

Lemma extract_links_every_html_part_witness :
  _extract_links_from_email one_anchor
    (Container multipart "alternative"
       [Leaf (Some "text/plain") 1 [xff];
        Container multipart "related" [Leaf (Some "text/html") 1 [xff]]])
  = Ok ["https://x.com/unsubscribe?u=1"]
  /\ _extract_links_from_email one_anchor (Leaf (Some "text/plain") 1 [x68; x69]) = Ok []
  /\ _extract_links_from_email one_anchor (Leaf (Some "text/plain") 1 [xff])
     = Raise UnicodeDecodeError.
Proof.
  destruct (extract_links_every_html_part one_anchor) as [Hm Hs]. split; [|split].
  - destruct (Hm multipart "alternative"
                 [Leaf (Some "text/plain") 1 [xff];
                  Container multipart "related" [Leaf (Some "text/html") 1 [xff]]])
      as (links & He & Hl & _).
    rewrite He, Hl. vm_compute. reflexivity.
  - apply (Hs (Some "text/plain") 1 [x68; x69]). discriminate.
  - apply (Hs (Some "text/plain") 1 [xff]). discriminate.
Defined.

(** A single-part message without any HTML part whose payload is not UTF-8:
    extraction does not return the empty list, it raises; the same part as
    the only part of a multi-part message gives the empty list. *)
Lemma no_html_part_not_empty :
  let msg := Leaf (Some "text/plain") 1 [xff] in
  walk msg = [msg]
  /\ get_content_type msg = "text/plain"
  /\ _extract_links_from_email empty_document msg = Raise UnicodeDecodeError
  /\ _extract_links_from_email empty_document msg <> Ok []
  /\ _extract_links_from_email empty_document (Container multipart "mixed" [msg]) = Ok [].
Proof. repeat split. discriminate. Qed.

(** C3 (amended).  In a multi-part message the payload of a part is handed
    to the HTML parser as bytes and is never decoded by the extractor: for
    every payload whatsoever, extraction returns, and its result holds the
    links of every part.  In a single-part [text/html] message, a payload
    that is not valid UTF-8 makes extraction raise. *)
Theorem decode_failure_behaviour (BeautifulSoup : markup -> PageElement) :
  (forall mt sub ps,
     exists links,
       _extract_links_from_email BeautifulSoup (Container mt sub ps) = Ok links
       /\ forall part link,
            Part_of part (Container mt sub ps) ->
            link ∈ html_links BeautifulSoup part -> link ∈ links)
  /\ (forall o payload,
        Utf8.valid payload = false ->
        _extract_links_from_email BeautifulSoup (Leaf (Some "text/html") o payload)
          = Raise UnicodeDecodeError).
Proof.
  split.
  - intros mt sub ps. eexists. split; [apply extract_multipart|].
    intros part link Hp Hl. apply walk_parts in Hp.
    apply list_elem_of_In, in_concat. exists (html_links BeautifulSoup part).
    split; [apply in_map|]; by apply list_elem_of_In.
  - intros o payload. apply extract_undecodable.
Qed.

Lemma decode_failure_behaviour_witness :
  (exists links,
     _extract_links_from_email one_anchor
       (Container multipart "mixed"
          [Leaf (Some "text/html") 1 [xff]; Leaf (Some "text/html") 1 []]) = Ok links
     /\ "https://x.com/unsubscribe?u=1" ∈ links)
  /\ _extract_links_from_email one_anchor (Leaf (Some "text/html") 1 [xff])
       = Raise UnicodeDecodeError.
Proof.
  destruct (decode_failure_behaviour one_anchor) as [Hm Hs]. split.
  - destruct (Hm multipart "mixed"
                 [Leaf (Some "text/html") 1 [xff]; Leaf (Some "text/html") 1 []])
      as (links & He & Hl).
    exists links. split; [exact He|].
    apply (Hl (Leaf (Some "text/html") 1 [xff])).
    + eapply Part_sub; [apply list_elem_of_here | constructor].
    + vm_compute. apply list_elem_of_here.
  - apply Hs. reflexivity.
Defined.

(** A message whose only part fails to decode: the part is not skipped,
    extraction for the message is aborted by the exception. *)
Lemma decode_failure_aborts :
  bytes_decode [xff] = Raise UnicodeDecodeError
  /\ _extract_links_from_email one_anchor (Leaf (Some "text/html") 1 [xff])
       = Raise UnicodeDecodeError.
Proof. split; reflexivity. Qed.

(** C10.  For every single-part message, of any content type, whose payload
    is not valid UTF-8, extraction raises [UnicodeDecodeError]: the payload
    is decoded before the content type is looked at. *)
Theorem single_part_undecodable_raises
    (BeautifulSoup : markup -> PageElement) (msg : Message) (payload : list byte) :
  is_multipart msg = false ->
  get_payload_decode msg = Some payload ->
  Utf8.valid payload = false ->
  _extract_links_from_email BeautifulSoup msg = Raise UnicodeDecodeError.
Proof.
  intros Hm Hp Hv. destruct msg as [c o b|]; [|done].
  injection Hp as ->. by apply extract_undecodable.
Qed.

Lemma single_part_undecodable_raises_witness :
  _extract_links_from_email one_anchor (Leaf (Some "text/plain") 2 [x63; xe9])
    = Raise UnicodeDecodeError.
Proof.
  apply (single_part_undecodable_raises one_anchor
           (Leaf (Some "text/plain") 2 [x63; xe9]) [x63; xe9]); reflexivity.
Defined.

(** ** The mailbox scan *)

Lemma logouts_app (t1 t2 : World) : logouts (t1 ++ t2) = logouts t1 + logouts t2.
Proof. unfold logouts. by rewrite List.filter_app, length_app. Qed.

Lemma fetches_of_app (t1 t2 : World) :
  fetches_of (t1 ++ t2) = (fetches_of t1 ++ fetches_of t2).
Proof. apply omap_app. Qed.

Section ScanFacts.

Variable BeautifulSoup : markup -> PageElement.
Variable mail : IMAP4_SSL.

Lemma fetch_email_data_run (email_id : string) (w : World) :
  _fetch_email_data mail email_id w
  = (Ok (fetch mail email_id),
     (w ++ IMAP_fetch email_id ::
        match fetch mail email_id with
        | Some _ => []
        | None => [Logged (LogFetchFailed email_id)]
        end)).
Proof.
  unfold _fetch_email_data. run_M.
  destruct (fetch mail email_id); [done|]. by rewrite <- app_assoc.
Qed.

Lemma scan_loop_run (email_ids : list string) (acc : list string) (w : World) :
  exists t,
    scan_loop BeautifulSoup mail email_ids acc w
      = (scan_result BeautifulSoup (omap (fetch mail) email_ids) acc, (w ++ t))
    /\ logouts t = 0
    /\ (forall links, scan_result BeautifulSoup (omap (fetch mail) email_ids) acc = Ok links ->
          fetches_of t = email_ids).
Proof.
  revert acc w. induction email_ids as [|email_id rest IH]; intros acc w.
  - exists []. simpl. run_M. by rewrite app_nil_r.
  - cbn [scan_loop]. unfold mbind at 1, M_bind at 1, bind at 1.
    rewrite fetch_email_data_run. cbn [omap list_omap].
    destruct (fetch mail email_id) as [m|] eqn:Hf.
    + cbn [scan_result]. destruct (Message_bool m).
      * unfold mbind at 1, M_bind at 1, bind at 1, lift at 1.
        destruct (_extract_links_from_email BeautifulSoup m) as [links|e]; cbn [bind_result].
        -- destruct (IH (acc ++ links) (w ++ [IMAP_fetch email_id]))
             as (t & -> & Hl & Hi).
           exists (IMAP_fetch email_id :: t). rewrite <- app_assoc.
           split; [done|]. split; [done|].
           intros ls Hs. simpl. f_equal. by eapply Hi.
        -- exists [IMAP_fetch email_id]. by repeat split.
      * destruct (IH acc (w ++ [IMAP_fetch email_id])) as (t & -> & Hl & Hi).
        exists (IMAP_fetch email_id :: t). rewrite <- app_assoc.
        split; [done|]. split; [done|].
        intros ls Hs. simpl. f_equal. by eapply Hi.
    + destruct (IH acc (w ++ [IMAP_fetch email_id; Logged (LogFetchFailed email_id)]))
        as (t & -> & Hl & Hi).
      exists (IMAP_fetch email_id :: Logged (LogFetchFailed email_id) :: t).
      rewrite <- app_assoc. split; [done|]. split; [done|].
      intros ls Hs. simpl. f_equal. by eapply Hi.
Qed.

Lemma find_unsubscribe_links_run (w : World) :
  exists t,
    find_unsubscribe_links BeautifulSoup mail w
      = (match logout mail with Ok _ => body_result BeautifulSoup mail | Raise e => Raise e end,
         (w ++ IMAP_search :: t ++ IMAP_logout ::
            match logout mail with Ok _ => [Logged LogLoggedOut] | Raise _ => [] end))
    /\ logouts t = 0
    /\ (forall ids links, search mail = Ok ids -> body_result BeautifulSoup mail = Ok links ->
          fetches_of t = ids).
Proof.
  unfold find_unsubscribe_links, body_result, try_finally.
  unfold mbind at 1, M_bind at 1, bind at 1, emit at 1.
  unfold mbind at 1, M_bind at 1, bind at 1, lift at 1.
  destruct (search mail) as [ids|e]; cbn [bind_result].
  - unfold mbind at 1, M_bind at 1, bind at 1.
    destruct (scan_loop_run ids [] (w ++ [IMAP_search])) as (t & -> & Hl & Hi).
    destruct (scan_result BeautifulSoup (omap (fetch mail) ids) []) as [links|e] eqn:Hs.
    + exists (t ++ [Logged (LogTotal (length links))]). run_M.
      destruct (logout mail); rewrite <- !app_assoc; simpl.
      * split; [done|]. rewrite logouts_app, Hl. split; [done|].
        intros ids' ls [= <-] _. rewrite fetches_of_app, (Hi links eq_refl).
        apply app_nil_r.
      * split; [done|]. rewrite logouts_app, Hl. split; [done|].
        intros ids' ls [= <-] _. rewrite fetches_of_app, (Hi links eq_refl).
        apply app_nil_r.
    + exists t. run_M.
      destruct (logout mail); rewrite <- !app_assoc; simpl; by repeat split.
  - exists []. run_M. destruct (logout mail); rewrite <- !app_assoc; simpl; by repeat split.
Qed.

Lemma falsy_no_links (msg : Message) : Message_bool msg = false -> links_of BeautifulSoup msg = [].
Proof.
  destruct msg as [[c|] [|n] p|]; try done. intros _.
  unfold links_of. rewrite extract_single_part.
  by destruct (bytes_decode p).
Qed.

Lemma scan_result_ok (msgs : list Message) (acc links : list string) :
  scan_result BeautifulSoup msgs acc = Ok links ->
  links = (acc ++ concat (map (links_of BeautifulSoup) msgs)).
Proof.
  revert acc. induction msgs as [|m msgs IH]; intros acc; simpl.
  - intros [= <-]. by rewrite app_nil_r.
  - destruct (Message_bool m) eqn:Hb.
    + unfold links_of at 1.
      destruct (_extract_links_from_email BeautifulSoup m) as [l|e]; [|done].
      simpl. intros H. apply IH in H. by rewrite H, <- app_assoc.
    + rewrite falsy_no_links by done. apply IH.
Qed.

Lemma scan_result_total (msgs : list Message) (acc : list string) :
  (forall m, m ∈ msgs -> Message_bool m = true ->
     exists l, _extract_links_from_email BeautifulSoup m = Ok l) ->
  exists links, scan_result BeautifulSoup msgs acc = Ok links.
Proof.
  revert acc. induction msgs as [|m msgs IH]; intros acc H; simpl; [by eexists|].
  assert (Hrest : forall m', m' ∈ msgs -> Message_bool m' = true ->
            exists l, _extract_links_from_email BeautifulSoup m' = Ok l)
    by (intros m' Hm; apply H; by apply list_elem_of_further).
  destruct (Message_bool m) eqn:Hb; [|by apply IH].
  destruct (H m (list_elem_of_here _ _) Hb) as [l ->]. simpl. by apply IH.
Qed.

End ScanFacts.

(** C4.  Whatever the server answers (the search may raise, fetches may
    fail, an extraction may raise in the middle of the scan, the logout
    itself may raise), a run of [find_unsubscribe_links] calls
    [mail.logout()] exactly once, after the search and everything the scan
    did, and nothing but the log line follows it. *)
Theorem logout_exactly_once
    (BeautifulSoup : markup -> PageElement) (mail : IMAP4_SSL) (w : World) :
  exists t1 t2,
    snd (find_unsubscribe_links BeautifulSoup mail w)
      = w ++ IMAP_search :: t1 ++ IMAP_logout :: t2
    /\ logouts t1 = 0
    /\ (t2 = [] \/ t2 = [Logged LogLoggedOut])
    /\ logouts (IMAP_search :: t1 ++ IMAP_logout :: t2) = 1.
Proof.
  destruct (find_unsubscribe_links_run BeautifulSoup mail w) as (t & -> & Hl & _).
  eexists t, _. split; [reflexivity|]. split; [done|].
  change (IMAP_search :: ?a) with ([IMAP_search] ++ a).
  rewrite !logouts_app, Hl. destruct (logout mail); split; auto.
Qed.

(** A run in which an extraction raises partway: the second message aborts
    the scan, the third is never fetched, and the session is logged out. *)
Example logout_after_error :
  find_unsubscribe_links one_anchor
    {| search := Ok ["1"; "2"; "3"];
       fetch := fun _ => Some (Leaf (Some "text/html") 1 [xff]);
       logout := Ok tt |} []
  = (Raise UnicodeDecodeError,
     [IMAP_search; IMAP_fetch "1"; IMAP_logout; Logged LogLoggedOut]).
Proof. reflexivity. Qed.

(** A run in which the search itself raises. *)
Example logout_after_search_error :
  find_unsubscribe_links one_anchor
    {| search := Raise IMAP4_error; fetch := fun _ => None; logout := Ok tt |} []
  = (Raise IMAP4_error, [IMAP_search; IMAP_logout; Logged LogLoggedOut]).
Proof. reflexivity. Qed.

(** C5.  Let the search return [ids].  When the scan returns, its links are
    exactly those extracted from the messages whose fetch succeeded, in
    identifier order, and every identifier was fetched, those after a failed
    fetch included.  A failed fetch never makes the scan raise: the scan
    returns whenever the extractions and the logout do. *)
Theorem fetch_failure_skipped
    (BeautifulSoup : markup -> PageElement)
    (ids : list string) (fetch : string -> option Message) (logout : Result unit)
    (w : World) :
  let mail := {| search := Ok ids; fetch := fetch; logout := logout |} in
  let fetched := omap fetch ids in
  (forall links w',
     find_unsubscribe_links BeautifulSoup mail w = (Ok links, w') ->
     links = concat (map (links_of BeautifulSoup) fetched)
     /\ exists t, w' = w ++ t /\ fetches_of t = ids)
  /\ ((forall m, m ∈ fetched -> Message_bool m = true ->
         exists l, _extract_links_from_email BeautifulSoup m = Ok l) ->
      logout = Ok tt ->
      exists links w', find_unsubscribe_links BeautifulSoup mail w = (Ok links, w')).
Proof.
  intros mail fetched.
  destruct (find_unsubscribe_links_run BeautifulSoup mail w) as (t & Hrun & _ & Hi).
  unfold body_result in *. simpl in Hrun, Hi. fold fetched in Hrun, Hi. split.
  - intros links w' H. rewrite Hrun in H. destruct logout as [[]|e]; [|done].
    injection H as Hr <-. split.
    + by apply scan_result_ok in Hr.
    + eexists. split; [reflexivity|].
      change (IMAP_search :: ?a) with ([IMAP_search] ++ a).
      change (IMAP_logout :: ?a) with ([IMAP_logout] ++ a).
      rewrite !fetches_of_app. simpl. rewrite app_nil_r. by eapply Hi.
  - intros Hx ->. destruct (scan_result_total BeautifulSoup fetched [] Hx) as [links Hs].
    rewrite Hrun, Hs. by eexists _, _.
Qed.

Lemma fetch_failure_skipped_witness :
  find_unsubscribe_links one_anchor
    {| search := Ok ["1"; "2"; "3"; "4"];
       fetch := fun i => if String.eqb i "3" then None
                         else Some (Leaf (Some "text/html") 1 []);
       logout := Ok tt |} []
  = (Ok ["https://x.com/unsubscribe?u=1"; "https://x.com/unsubscribe?u=1";
         "https://x.com/unsubscribe?u=1"],
     [IMAP_search; IMAP_fetch "1"; IMAP_fetch "2"; IMAP_fetch "3";
      Logged (LogFetchFailed "3"); IMAP_fetch "4"; Logged (LogTotal 3);
      IMAP_logout; Logged LogLoggedOut]).
Proof.
  pose proof (fetch_failure_skipped one_anchor ["1"; "2"; "3"; "4"]
                (fun i => if String.eqb i "3" then None
                          else Some (Leaf (Some "text/html") 1 []))
                (Ok tt) []) as [Hlinks Hret].
  destruct Hret as (links & w' & Hrun).
  - intros m Hm _. vm_compute in Hm.
    eexists. repeat (apply elem_of_cons in Hm as [->|Hm]; [vm_compute; reflexivity|]).
    by apply elem_of_nil in Hm.
  - reflexivity.
  - vm_compute. reflexivity.
Defined.

(** ** Visiting links *)

Lemma requests_of_app (t1 t2 : World) :
  requests_of (t1 ++ t2) = requests_of t1 ++ requests_of t2.
Proof. apply omap_app. Qed.

Lemma outcomes_app (t1 t2 : World) : outcomes (t1 ++ t2) = outcomes t1 ++ outcomes t2.
Proof. apply omap_app. Qed.


Lemma outcomes_gets (k : nat) (url : string) : outcomes (replicate k (HTTP_get url)) = [].
Proof. by induction k. Qed.


Section VisitFacts.

Variable net : Network.

Lemma urlopen_step (fl : list Z) (n : nat) (url : string) (w : World) :
  urlopen net fl n url w =
    match net (requests_of w) url with
    | Responds s =>
        if is_retry fl s then
          match n with
          | O => (Raise (RetryError s), w ++ [HTTP_get url])
          | S k => urlopen net fl k url (w ++ [HTTP_get url])
          end
        else (Ok s, w ++ [HTTP_get url])
    | Fails =>
        match n with
        | O => (Raise ConnectionError, w ++ [HTTP_get url])
        | S k => urlopen net fl k url (w ++ [HTTP_get url])
        end
    end.
Proof.
  destruct n; simpl; run_M; unfold send_request;
    destruct (net (requests_of w) url) as [s|]; try done; by destruct (is_retry fl s).
Qed.



(** The loop always ends, after at least one and at most [n + 1] requests;
    it returns a status outside the retry list that some request got, or
    raises a [RequestException]. *)
Lemma urlopen_run (fl : list Z) (n : nat) (url : string) (w : World) :
  exists k r,
    urlopen net fl n url w = (r, w ++ replicate k (HTTP_get url))
    /\ 1 <= k <= S n
    /\ match r with
       | Ok s => is_retry fl s = false /\ exists h, net h url = Responds s
       | Raise e => is_RequestException e = true /\ k = S n
       end.
Proof.
  revert w. induction n as [|n IH]; intros w; rewrite urlopen_step.
  - destruct (net (requests_of w) url) as [s|] eqn:Hn.
    + destruct (is_retry fl s) eqn:Hr.
      * exists 1, (Raise (RetryError s)). repeat split; lia.
      * exists 1, (Ok s). repeat split; eauto; lia.
    + exists 1, (Raise ConnectionError). repeat split; lia.
  - assert (Hrec : exists k r,
              urlopen net fl n url (w ++ [HTTP_get url])
                = (r, w ++ replicate k (HTTP_get url))
              /\ 1 <= k <= S (S n)
              /\ match r with
                 | Ok s => is_retry fl s = false /\ exists h, net h url = Responds s
                 | Raise e => is_RequestException e = true /\ k = S (S n)
                 end).
    { destruct (IH (w ++ [HTTP_get url])) as (k & r & -> & Hk & Hres).
      exists (S k), r. rewrite <- app_assoc. split; [done|]. split; [lia|].
      destruct r; [done|]. destruct Hres. split; [done | lia]. }
    destruct (net (requests_of w) url) as [s|] eqn:Hn; [|exact Hrec].
    destruct (is_retry fl s) eqn:Hr; [exact Hrec|].
    exists 1, (Ok s). repeat split; eauto; lia.
Qed.

Lemma session_get_adapter (session : Session) (link : string) (w : World) :
  session_get net session link w
  = match get_adapter session link with
    | Ok adapter =>
        urlopen net (status_forcelist (max_retries adapter))
          (total (max_retries adapter)) link w
    | Raise e => (Raise e, w)
    end.
Proof. unfold session_get. run_M. by destruct (get_adapter session link). Qed.

(** One link: the visit returns normally, with exactly one log record, which
    tells the outcome for that link; a link the session has an adapter for
    is requested at least once. *)
Lemma access_link_run (session : Session) (link : string) (w : World) :
  exists k o,
    access_link net session link w
      = (Ok tt, w ++ replicate k (HTTP_get link) ++
                  [Logged match o with
                          | Success => LogAccessed link
                          | HTTPFailure s => LogFailedStatus link s
                          | NetworkFailure e => LogAccessError link e
                          end])
    /\ (get_adapter session link <> Raise InvalidSchema -> 1 <= k)
    /\ (o = Success -> exists h, net h link = Responds 200%Z).
Proof.
  unfold access_link, try_except.
  unfold mbind at 1, M_bind at 1, bind at 1.
  rewrite session_get_adapter. unfold get_adapter.
  destruct (List.find _ (adapters session)) as [[prefix adapter]|]; cbn [snd].
  - destruct (urlopen_run (status_forcelist (max_retries adapter))
                (total (max_retries adapter)) link w) as (k & r & -> & Hk & Hres).
    destruct r as [s|e].
    + destruct Hres as [_ [h Hh]]. destruct (Z.eqb_spec s 200) as [->|Hs].
      * exists k, Success. run_M. rewrite <- app_assoc. repeat split; eauto; lia.
      * exists k, (HTTPFailure s). run_M. rewrite <- app_assoc.
        repeat split; [lia | done].
    + destruct Hres as [-> _]. exists k, (NetworkFailure e). run_M.
      rewrite <- app_assoc. repeat split; [lia | done].
  - exists 0, (NetworkFailure InvalidSchema). cbn [is_RequestException]. run_M.
    repeat split; done.
Qed.

Lemma access_links_cons (session : Session) (link : string) (rest : list string) (w : World) :
  access_links net session (link :: rest) w
  = access_links net session rest (snd (access_link net session link w)).
Proof.
  cbn [access_links]. unfold mbind, M_bind, bind.
  by destruct (access_link_run session link w) as (k & o & -> & _).
Qed.

End VisitFacts.

(** The session of the program has its retrying adapter for the links that
    start with [http://] or [https://], in any letter case, and none for any
    other link. *)
Lemma get_adapter_LinkHandler (retries : nat) (link : string) :
  get_adapter (LinkHandler retries) link
  = if is_http link then
      Ok {| max_retries :=
              {| total := retries;
                 status_forcelist := [429; 500; 502; 503; 504]%Z |} |}
    else Raise InvalidSchema.
Proof.
  unfold get_adapter, is_http.
  change (adapters (LinkHandler retries)) with
    [("http://", {| max_retries :=
                      {| total := retries;
                         status_forcelist := [429; 500; 502; 503; 504]%Z |} |});
     ("https://", {| max_retries :=
                       {| total := retries;
                          status_forcelist := [429; 500; 502; 503; 504]%Z |} |})].
  cbn [List.find fst snd].
  change (Text.lower "http://") with "http://".
  change (Text.lower "https://") with "https://".
  by destruct (Text.startswith "http://" (Text.lower link)),
              (Text.startswith "https://" (Text.lower link)).
Qed.





(** * Further properties of the program *)

(** ** Anchors at any depth *)

Lemma PageElement_nested_ind (P : PageElement -> Prop) :
  (forall text, P (NavigableString text)) ->
  (forall n a cs, Forall P cs -> P (Tag n a cs)) ->
  forall e, P e.
Proof.
  intros Hs Ht. fix IH 1. intros [text|n a cs].
  - apply Hs.
  - apply Ht. induction cs as [|c cs IHcs]; constructor; [apply IH | apply IHcs].
Qed.

(** [descendants] lists exactly the elements nested in the root. *)
Lemma descendants_nested (root e : PageElement) :
  e ∈ descendants root <-> Element_of e root.
Proof.
  split.
  - revert e. induction root as [text|n a cs IH] using PageElement_nested_ind;
      intros e; simpl.
    + intros H. by apply elem_of_nil in H.
    + intros Hin. apply list_elem_of_In, in_concat in Hin as (l & Hl & He).
      apply in_map_iff in Hl as (c & <- & Hc).
      apply list_elem_of_In in Hc. apply list_elem_of_In, elem_of_cons in He.
      destruct He as [->|He]; [by apply Element_child|].
      rewrite Forall_forall in IH. eapply Element_deeper; [exact Hc | by apply IH].
  - induction 1 as [e n a cs Hc|e c n a cs Hc _ IH]; simpl;
      apply list_elem_of_In, in_concat.
    + exists (e :: descendants e). split; [|by left].
      apply in_map_iff. exists e. split; [done | by apply list_elem_of_In].
    + exists (c :: descendants c). split; [|right; by apply list_elem_of_In].
      apply in_map_iff. exists c. split; [done | by apply list_elem_of_In].
Qed.

(** X1.  A link is returned by [_parse_html_for_links] if and only if the
    document holds, at some depth, an [a] tag whose [href] is that link and
    whose lower-cased form contains "unsubscribe"; the link is returned as
    written in the document, in its own letter case. *)
Theorem parse_html_for_links_iff
    (BeautifulSoup : markup -> PageElement) (html_content : markup) (link : string) :
  link ∈ _parse_html_for_links BeautifulSoup html_content
  <-> exists a,
        Element_of a (BeautifulSoup html_content)
        /\ tag_name a = Some "a"
        /\ tag_get a "href" = Some link
        /\ Text.Substring "unsubscribe" (Text.lower link).
Proof.
  unfold _parse_html_for_links, unsubscribe_hrefs, find_all_a_href.
  rewrite list_elem_of_omap. split.
  - intros (a & Ha & Hl). apply list_elem_of_In, filter_In in Ha as [Ha Hp].
    apply andb_true_iff in Hp as [Hn _]. apply bool_decide_eq_true_1 in Hn.
    destruct (tag_get a "href") as [href|] eqn:Hh; [|done].
    destruct (Text.contains "unsubscribe" (Text.lower href)) eqn:Hc; [|done].
    injection Hl as <-. exists a. split; [by apply descendants_nested, list_elem_of_In|].
    split; [done|]. split; [done|]. by apply TextFacts.contains_spec.
  - intros (a & Ha & Hn & Hh & Hs). exists a. split.
    + apply list_elem_of_In, filter_In. split.
      * by apply list_elem_of_In, descendants_nested.
      * rewrite Hh. apply andb_true_iff. split; apply bool_decide_eq_true_2; eauto.
    + rewrite Hh. apply TextFacts.contains_spec in Hs. by rewrite Hs.
Qed.

(** ** The shape of a multi-part message *)

Lemma html_links_container
    (BeautifulSoup : markup -> PageElement) (mt : maintype) (sub : string)
    (ps : list Message) :
  html_links BeautifulSoup (Container mt sub ps) = [].
Proof. unfold html_links. by rewrite container_not_html. Qed.

(** X2.  In a multi-part message the links follow the order of the parts:
    the links of a message whose parts are [ps1 ++ ps2] are those of [ps1]
    followed by those of [ps2].  Nesting does not matter: moving the parts
    of an inner container up into its parent leaves the result as it was. *)
Theorem extract_links_parts_structure
    (BeautifulSoup : markup -> PageElement)
    (mt mt' : maintype) (sub sub' : string) (ps1 ps2 : list Message) :
  (exists l1 l2,
     _extract_links_from_email BeautifulSoup (Container mt sub ps1) = Ok l1
     /\ _extract_links_from_email BeautifulSoup (Container mt sub ps2) = Ok l2
     /\ _extract_links_from_email BeautifulSoup (Container mt sub (ps1 ++ ps2))
          = Ok (l1 ++ l2))
  /\ _extract_links_from_email BeautifulSoup
       (Container mt sub (Container mt' sub' ps1 :: ps2))
     = _extract_links_from_email BeautifulSoup (Container mt sub (ps1 ++ ps2)).
Proof.
  rewrite !extract_multipart. cbn [walk map concat].
  rewrite !html_links_container. cbn [app].
  repeat first [rewrite map_app | rewrite concat_app].
  cbn [map concat]. rewrite html_links_container. cbn [app].
  repeat first [rewrite map_app | rewrite concat_app]. split.
  - by eexists _, _.
  - done.
Qed.

(** ** The trace of a scan *)

Section ScanTraceFacts.

Variable BeautifulSoup : markup -> PageElement.
Variable mail : IMAP4_SSL.

Lemma scan_loop_trace (email_ids : list string) (acc : list string) (w : World) :
  scan_loop BeautifulSoup mail email_ids acc w
  = (scan_result BeautifulSoup (omap (fetch mail) email_ids) acc,
     w ++ scan_trace BeautifulSoup mail email_ids).
Proof.
  revert acc w. induction email_ids as [|email_id rest IH]; intros acc w.
  - simpl. run_M. by rewrite app_nil_r.
  - cbn [scan_loop scan_trace]. unfold mbind at 1, M_bind at 1, bind at 1.
    rewrite fetch_email_data_run. cbn [omap list_omap].
    destruct (fetch mail email_id) as [m|].
    + cbn [scan_result]. destruct (Message_bool m).
      * unfold mbind at 1, M_bind at 1, bind at 1, lift at 1.
        destruct (_extract_links_from_email BeautifulSoup m) as [links|e];
          cbn [bind_result]; [|done].
        by rewrite IH, <- app_assoc.
      * by rewrite IH, <- app_assoc.
    + by rewrite IH, <- app_assoc.
Qed.

Lemma find_unsubscribe_links_trace (w : World) :
  find_unsubscribe_links BeautifulSoup mail w
  = (match logout mail with
     | Ok _ => body_result BeautifulSoup mail
     | Raise e => Raise e
     end,
     w ++ IMAP_search :: body_trace BeautifulSoup mail ++ logout_trace mail).
Proof.
  unfold find_unsubscribe_links, body_result, body_trace, logout_trace, try_finally.
  unfold mbind at 1, M_bind at 1, bind at 1, emit at 1.
  unfold mbind at 1, M_bind at 1, bind at 1, lift at 1.
  destruct (search mail) as [ids|e]; cbn [bind_result].
  - unfold mbind at 1, M_bind at 1, bind at 1. rewrite scan_loop_trace.
    destruct (scan_result BeautifulSoup (omap (fetch mail) ids) []) as [links|e];
      run_M; destruct (logout mail); by rewrite <- ?app_assoc.
  - run_M. destruct (logout mail); by rewrite <- ?app_assoc.
Qed.

Lemma requests_of_scan_trace (ids : list string) :
  requests_of (scan_trace BeautifulSoup mail ids) = [].
Proof.
  induction ids as [|i ids IH]; [done|]. cbn [scan_trace].
  destruct (fetch mail i) as [m|]; [|exact IH].
  destruct (Message_bool m); [|exact IH].
  by destruct (_extract_links_from_email BeautifulSoup m).
Qed.

Lemma outcomes_scan_trace (ids : list string) :
  outcomes (scan_trace BeautifulSoup mail ids) = [].
Proof.
  induction ids as [|i ids IH]; [done|]. cbn [scan_trace].
  destruct (fetch mail i) as [m|]; [|exact IH].
  destruct (Message_bool m); [|exact IH].
  by destruct (_extract_links_from_email BeautifulSoup m).
Qed.

Lemma totals_of_scan_trace (ids : list string) :
  totals_of (scan_trace BeautifulSoup mail ids) = [].
Proof.
  induction ids as [|i ids IH]; [done|]. cbn [scan_trace].
  destruct (fetch mail i) as [m|]; [|exact IH].
  destruct (Message_bool m); [|exact IH].
  by destruct (_extract_links_from_email BeautifulSoup m).
Qed.

Lemma logouts_scan_trace (ids : list string) :
  logouts (scan_trace BeautifulSoup mail ids) = 0.
Proof.
  induction ids as [|i ids IH]; [done|]. cbn [scan_trace].
  destruct (fetch mail i) as [m|]; [|exact IH].
  destruct (Message_bool m); [|exact IH].
  by destruct (_extract_links_from_email BeautifulSoup m).
Qed.

(** When the loop returns, the log names the identifiers whose fetch
    failed. *)
Lemma failed_fetches_of_scan_trace (ids : list string) (acc links : list string) :
  scan_result BeautifulSoup (omap (fetch mail) ids) acc = Ok links ->
  failed_fetches_of (scan_trace BeautifulSoup mail ids)
  = List.filter (fun i => match fetch mail i with None => true | Some _ => false end) ids.
Proof.
  revert acc. induction ids as [|i ids IH]; intros acc; [done|].
  cbn [scan_trace omap list_omap List.filter].
  destruct (fetch mail i) as [m|].
  - cbn [scan_result]. destruct (Message_bool m); [|apply IH].
    destruct (_extract_links_from_email BeautifulSoup m); [|done]. apply IH.
  - intros H. cbn. f_equal. by eapply IH.
Qed.

(** An extraction that raises ends the loop: nothing after it is fetched. *)
Lemma scan_trace_abort (pre post : list string) (i : string) (m : Message)
    (e : exn) (acc links : list string) :
  scan_result BeautifulSoup (omap (fetch mail) pre) acc = Ok links ->
  fetch mail i = Some m -> Message_bool m = true ->
  _extract_links_from_email BeautifulSoup m = Raise e ->
  scan_result BeautifulSoup (omap (fetch mail) (pre ++ i :: post)) acc = Raise e
  /\ fetches_of (scan_trace BeautifulSoup mail (pre ++ i :: post)) = pre ++ [i].
Proof.
  intros Hpre Hf Hb Hx. revert acc Hpre.
  induction pre as [|j pre IH]; intros acc Hpre.
  - cbn [app omap list_omap scan_trace]. rewrite Hf. cbn [scan_result].
    by rewrite Hb, Hx.
  - cbn [app omap list_omap scan_trace] in *.
    destruct (fetch mail j) as [mj|].
    + cbn [scan_result] in *. destruct (Message_bool mj).
      * destruct (_extract_links_from_email BeautifulSoup mj) as [l|]; [|done].
        cbn [bind_result] in *. destruct (IH _ Hpre) as [-> Ht].
        split; [done|]. unfold fetches_of in *. cbn [omap list_omap]. by rewrite Ht.
      * destruct (IH _ Hpre) as [-> Ht]. split; [done|].
        unfold fetches_of in *. cbn [omap list_omap]. by rewrite Ht.
    + destruct (IH _ Hpre) as [-> Ht]. split; [done|].
      unfold fetches_of in *. cbn [omap list_omap]. by rewrite Ht.
Qed.

Lemma scan_result_without_headerless (ids : list string) (acc : list string) :
  scan_result BeautifulSoup (omap (fetch (without_headerless mail)) ids) acc
  = scan_result BeautifulSoup (omap (fetch mail) ids) acc.
Proof.
  revert acc. induction ids as [|i ids IH]; intros acc; [done|].
  cbn [omap list_omap without_headerless fetch].
  destruct (fetch mail i) as [m|] eqn:Hf; [|apply IH].
  destruct (Message_bool m) eqn:Hb.
  - cbn [scan_result]. rewrite Hb.
    destruct (_extract_links_from_email BeautifulSoup m); [|done]. apply IH.
  - cbn [scan_result]. rewrite Hb. apply IH.
Qed.

End ScanTraceFacts.

(** ** Errors and log of the scan *)

(** X3.  When [mail.logout()] raises, [find_unsubscribe_links] raises that
    exception, whatever the scan had collected; the logout call is the last
    thing the run does, and it is the only one. *)
Theorem logout_failure_replaces_result
    (BeautifulSoup : markup -> PageElement) (mail : IMAP4_SSL) (w : World) (e : exn) :
  logout mail = Raise e ->
  exists t,
    find_unsubscribe_links BeautifulSoup mail w
      = (Raise e, w ++ IMAP_search :: t ++ [IMAP_logout])
    /\ logouts t = 0.
Proof.
  intros Hl. rewrite find_unsubscribe_links_trace. unfold logout_trace. rewrite Hl.
  exists (body_trace BeautifulSoup mail). split; [done|].
  unfold body_trace. destruct (search mail) as [ids|]; [|done].
  rewrite logouts_app, logouts_scan_trace.
  by destruct (scan_result BeautifulSoup (omap (fetch mail) ids) []).
Qed.

Lemma logout_failure_replaces_result_witness :
  exists t,
    find_unsubscribe_links one_anchor
      {| search := Ok ["1"];
         fetch := fun _ => Some (Leaf (Some "text/html") 1 []);
         logout := Raise IMAP4_error |} []
    = (Raise IMAP4_error, [] ++ IMAP_search :: t ++ [IMAP_logout])
    /\ logouts t = 0.
Proof.
  apply (logout_failure_replaces_result one_anchor
           {| search := Ok ["1"];
              fetch := fun _ => Some (Leaf (Some "text/html") 1 []);
              logout := Raise IMAP4_error |} [] IMAP4_error).
  reflexivity.
Defined.

(** X4.  When the search raises, no message is fetched and nothing is
    counted: the run is the search call followed by the logout, and the
    exception of the search reaches the caller unless the logout raises
    too. *)
Theorem search_failure_no_fetch
    (BeautifulSoup : markup -> PageElement) (mail : IMAP4_SSL) (w : World) (e : exn) :
  search mail = Raise e ->
  exists t,
    find_unsubscribe_links BeautifulSoup mail w
      = (match logout mail with Ok _ => Raise e | Raise e' => Raise e' end, w ++ t)
    /\ fetches_of t = []
    /\ totals_of t = []
    /\ logouts t = 1.
Proof.
  intros Hs. rewrite find_unsubscribe_links_trace.
  unfold body_result, body_trace, logout_trace. rewrite Hs. cbn [bind_result app].
  eexists. split; [reflexivity|]. by destruct (logout mail).
Qed.

Lemma search_failure_no_fetch_witness :
  exists t,
    find_unsubscribe_links one_anchor
      {| search := Raise IMAP4_error;
         fetch := fun _ => Some (Leaf (Some "text/html") 1 []);
         logout := Ok tt |} []
    = (Raise IMAP4_error, [] ++ t)
    /\ fetches_of t = [] /\ totals_of t = [] /\ logouts t = 1.
Proof.
  apply (search_failure_no_fetch one_anchor
           {| search := Raise IMAP4_error;
              fetch := fun _ => Some (Leaf (Some "text/html") 1 []);
              logout := Ok tt |} [] IMAP4_error).
  reflexivity.
Defined.

(** X5.  An extraction that raises aborts the whole scan.  Let the search
    return [pre ++ i :: post], let every message fetched for [pre] be
    extracted without error, and let the message of [i] have a header and
    make the extraction raise [e].  Then the scan raises [e]: the links of
    [pre] are lost, no identifier of [post] is fetched, and no total is
    logged. *)
Theorem extraction_error_aborts_scan
    (BeautifulSoup : markup -> PageElement) (mail : IMAP4_SSL) (w : World)
    (pre post : list string) (i : string) (m : Message) (e : exn) :
  search mail = Ok (pre ++ i :: post) ->
  logout mail = Ok tt ->
  (forall j mj, j ∈ pre -> fetch mail j = Some mj ->
     exists l, _extract_links_from_email BeautifulSoup mj = Ok l) ->
  fetch mail i = Some m ->
  Message_bool m = true ->
  _extract_links_from_email BeautifulSoup m = Raise e ->
  exists t,
    find_unsubscribe_links BeautifulSoup mail w = (Raise e, w ++ t)
    /\ fetches_of t = pre ++ [i]
    /\ totals_of t = [].
Proof.
  intros Hs Hl Hpre Hf Hb Hx.
  assert (Hok : exists links,
            scan_result BeautifulSoup (omap (fetch mail) pre) [] = Ok links).
  { apply scan_result_total. intros mj Hmj _.
    apply list_elem_of_omap in Hmj as (j & Hj & Hfj). by eapply Hpre. }
  destruct Hok as [links Hok].
  destruct (scan_trace_abort BeautifulSoup mail pre post i m e [] links Hok Hf Hb Hx)
    as [Hr Ht].
  rewrite find_unsubscribe_links_trace.
  unfold body_result, body_trace, logout_trace. rewrite Hs, Hl. cbn [bind_result].
  rewrite Hr. eexists. split; [reflexivity|].
  rewrite app_nil_r.
  change (IMAP_search :: ?a) with ([IMAP_search] ++ a).
  rewrite !fetches_of_app, Ht. split; [by rewrite app_nil_r|].
  unfold totals_of. rewrite !omap_app. fold (totals_of (scan_trace BeautifulSoup mail (pre ++ i :: post))).
  by rewrite totals_of_scan_trace.
Qed.

Lemma extraction_error_aborts_scan_witness :
  exists t,
    find_unsubscribe_links one_anchor
      {| search := Ok ["1"; "2"; "3"];
         fetch := fun i => if String.eqb i "2" then Some (Leaf (Some "text/plain") 1 [xe9])
                           else Some (Leaf (Some "text/html") 1 []);
         logout := Ok tt |} []
    = (Raise UnicodeDecodeError, [] ++ t)
    /\ fetches_of t = ["1"] ++ ["2"]
    /\ totals_of t = [].
Proof.
  apply (extraction_error_aborts_scan one_anchor
           {| search := Ok ["1"; "2"; "3"];
              fetch := fun i => if String.eqb i "2"
                                then Some (Leaf (Some "text/plain") 1 [xe9])
                                else Some (Leaf (Some "text/html") 1 []);
              logout := Ok tt |} [] ["1"] ["3"] "2" (Leaf (Some "text/plain") 1 [xe9])
           UnicodeDecodeError); try reflexivity.
  intros j mj Hj. apply list_elem_of_singleton in Hj as ->.
  intros [= <-]. by eexists.
Defined.

(** X6.  The total written to the log is the number of links returned: a
    scan that returns [links] logs [len(links)] once, and a scan whose
    [try] block raises logs no total. *)
Theorem total_logged_is_length
    (BeautifulSoup : markup -> PageElement) (mail : IMAP4_SSL) (w : World) :
  exists t,
    snd (find_unsubscribe_links BeautifulSoup mail w) = w ++ t
    /\ (forall links,
          fst (find_unsubscribe_links BeautifulSoup mail w) = Ok links ->
          totals_of t = [length links])
    /\ (forall e,
          logout mail = Ok tt ->
          fst (find_unsubscribe_links BeautifulSoup mail w) = Raise e ->
          totals_of t = []).
Proof.
  rewrite find_unsubscribe_links_trace. cbn [fst snd].
  eexists. split; [reflexivity|].
  assert (Ht : totals_of (IMAP_search :: body_trace BeautifulSoup mail ++ logout_trace mail)
               = match body_result BeautifulSoup mail with
                 | Ok links => [length links]
                 | Raise _ => []
                 end).
  { change (IMAP_search :: ?a) with ([IMAP_search] ++ a).
    unfold totals_of. rewrite !omap_app.
    fold (totals_of (body_trace BeautifulSoup mail)) (totals_of (logout_trace mail)).
    assert (totals_of (logout_trace mail) = []) as ->
      by (unfold logout_trace; by destruct (logout mail)).
    rewrite app_nil_r. cbn [omap list_omap app].
    unfold body_trace, body_result. destruct (search mail) as [ids|]; [|done].
    cbn [bind_result]. unfold totals_of. rewrite omap_app.
    fold (totals_of (scan_trace BeautifulSoup mail ids)).
    rewrite totals_of_scan_trace.
    by destruct (scan_result BeautifulSoup (omap (fetch mail) ids) []). }
  rewrite Ht. split.
  - intros links H. destruct (logout mail); [|done]. by rewrite H.
  - intros e Hl H. rewrite Hl in H. by rewrite H.
Qed.

(** X7.  When the scan returns, the fetch failures it logged are exactly the
    identifiers whose fetch failed, in the order of the search result. *)
Theorem fetch_failures_logged
    (BeautifulSoup : markup -> PageElement) (mail : IMAP4_SSL) (w w' : World)
    (ids links : list string) :
  search mail = Ok ids ->
  find_unsubscribe_links BeautifulSoup mail w = (Ok links, w') ->
  exists t,
    w' = w ++ t
    /\ failed_fetches_of t
       = List.filter (fun i => match fetch mail i with None => true | Some _ => false end)
           ids.
Proof.
  intros Hs. rewrite find_unsubscribe_links_trace.
  unfold body_result, body_trace, logout_trace. rewrite Hs. cbn [bind_result].
  destruct (logout mail); [|done]. intros [= Hr <-].
  eexists. split; [reflexivity|]. rewrite Hr.
  change (IMAP_search :: ?a) with ([IMAP_search] ++ a).
  unfold failed_fetches_of. rewrite !omap_app.
  fold (failed_fetches_of (scan_trace BeautifulSoup mail ids)).
  rewrite (failed_fetches_of_scan_trace BeautifulSoup mail ids [] links Hr).
  cbn. by rewrite !app_nil_r.
Qed.

Lemma fetch_failures_logged_witness :
  exists t,
    [IMAP_search; IMAP_fetch "1"; Logged (LogFetchFailed "1"); IMAP_fetch "2";
     IMAP_fetch "3"; Logged (LogFetchFailed "3"); Logged (LogTotal 1);
     IMAP_logout; Logged LogLoggedOut] = [] ++ t
    /\ failed_fetches_of t = ["1"; "3"].
Proof.
  apply (fetch_failures_logged one_anchor
           {| search := Ok ["1"; "2"; "3"];
              fetch := fun i => if String.eqb i "2"
                                then Some (Leaf (Some "text/html") 1 [])
                                else None;
              logout := Ok tt |} [] _ ["1"; "2"; "3"]
           ["https://x.com/unsubscribe?u=1"]); reflexivity.
Defined.

(** X8.  A fetched message without any header line counts as false in
    [if msg:] and is never handed to the extraction: the scan gives the same
    result as when the fetch of that message had failed, so its payload
    cannot make the scan raise. *)
Theorem headerless_message_skipped
    (BeautifulSoup : markup -> PageElement) (mail : IMAP4_SSL) (w : World) :
  fst (find_unsubscribe_links BeautifulSoup (without_headerless mail) w)
  = fst (find_unsubscribe_links BeautifulSoup mail w).
Proof.
  rewrite !find_unsubscribe_links_trace. cbn [fst]. unfold body_result.
  change (logout (without_headerless mail)) with (logout mail).
  change (search (without_headerless mail)) with (search mail).
  destruct (logout mail); [|done]. destruct (search mail) as [ids|]; [|done].
  cbn [bind_result]. apply scan_result_without_headerless.
Qed.

(** The same payload, not UTF-8, with and without a header line. *)
Example headerless_message_example :
  let mail (m : Message) : IMAP4_SSL :=
    {| search := Ok ["1"]; fetch := fun _ => Some m; logout := Ok tt |} in
  fst (find_unsubscribe_links one_anchor (mail (Leaf None 0 [xff])) []) = Ok []
  /\ fst (find_unsubscribe_links one_anchor (mail (Leaf None 1 [xff])) [])
     = Raise UnicodeDecodeError.
Proof. split; reflexivity. Qed.

(** ** Retries of the visit *)

Lemma requests_of_gets (k : nat) (url : string) :
  requests_of (replicate k (HTTP_get url)) = replicate k url.
Proof. induction k as [|k IH]; [done|]. unfold requests_of in *. cbn. by rewrite IH. Qed.

Section RetryFacts.

Variable net : Network.


End RetryFacts.



(** ** Start-up and the whole run *)

Ltac run_P :=
  unfold mbind, P_bind, mret, P_ret, setup, answer in *.

Lemma events_of_app (p1 p2 : Process) :
  events_of (p1 ++ p2) = events_of p1 ++ events_of p2.
Proof. apply omap_app. Qed.

Lemma events_of_inr (t : World) : events_of (map inr t) = t.
Proof. induction t as [|e t IH]; [done|]. unfold events_of in *. cbn. by rewrite IH. Qed.

(** A step of the scan or the visit that extends the world by [t] extends
    the run by the same events. *)
Lemma in_M_run {A} (m : M A) (p : Process) (r : Result A) (t : World) :
  m (events_of p) = (r, events_of p ++ t) ->
  in_M m p = (r, p ++ map inr t).
Proof. intros H. unfold in_M. rewrite H. by rewrite drop_app_length. Qed.

(** X13.  [_establish_email_connection] calls connect, login and select in
    that order and stops at the first that raises.  When all three return it
    gives the session and logs the success.  When one raises, the exception
    reaches the caller, and the calls made are those up to the call that
    raised it: connect alone when connect raised, connect and login when
    login raised, all three when select raised.  The exception is logged
    when, and only when, it is an [IMAP4.error]; no success is logged. *)
Theorem establish_email_connection_cases
    (env : Environment) (server : IMAP_server) (p : Process) :
  let user := EMAIL_USERNAME env in
  let password := EMAIL_PASSWORD env in
  let run := _establish_email_connection env server p in
  match connection_result env server with
  | Ok _ =>
      connect server IMAP_SERVER = Ok tt
      /\ login server user password = Ok tt
      /\ select server "inbox" = Ok tt
      /\ run = (Ok (mailbox_session server), p ++ connection_calls env ++ [inl LogConnected])
  | Raise e =>
      let logged : Process :=
        if is_IMAP4_error e then [inl (LogConnectFailed e)] else [] in
      (connect server IMAP_SERVER = Raise e
       /\ run = (Raise e, p ++ [inl (IMAP_connect IMAP_SERVER)] ++ logged))
      \/ (connect server IMAP_SERVER = Ok tt
          /\ login server user password = Raise e
          /\ run = (Raise e,
                    p ++ [inl (IMAP_connect IMAP_SERVER); inl (IMAP_login user password)]
                      ++ logged))
      \/ (connect server IMAP_SERVER = Ok tt
          /\ login server user password = Ok tt
          /\ select server "inbox" = Raise e
          /\ run = (Raise e, p ++ connection_calls env ++ logged))
  end.
Proof.
  intros user password run. subst user password run.
  unfold connection_result, _establish_email_connection, connection_calls. run_P.
  destruct (connect server IMAP_SERVER) as [[]|e]; cbn [bind_result].
  - destruct (login server (EMAIL_USERNAME env) (EMAIL_PASSWORD env)) as [[]|e];
      cbn [bind_result].
    + destruct (select server "inbox") as [[]|e].
      * repeat split. by rewrite <- !app_assoc.
      * right; right. repeat split. rewrite <- !app_assoc. cbn [app].
        destruct (is_IMAP4_error e); by rewrite <- ?app_assoc.
    + right; left. repeat split. rewrite <- !app_assoc. cbn [app].
      destruct (is_IMAP4_error e); by rewrite <- ?app_assoc.
  - left. split; [done|]. cbn [app].
    destruct (is_IMAP4_error e); by rewrite <- ?app_assoc.
Qed.

(** A server that refuses the login: connect and login are called, select is
    not, and the refusal is logged. *)
Example establish_email_connection_login_refused :
  let server :=
    {| connect := fun _ => Ok tt;
       login := fun _ _ => Raise IMAP4_error;
       select := fun _ => Ok tt;
       mailbox_session :=
         {| search := Ok []; fetch := fun _ => None; logout := Ok tt |} |} in
  let env := {| EMAIL_USERNAME := Some "u"; EMAIL_PASSWORD := None |} in
  snd (_establish_email_connection env server [])
  = [inl (IMAP_connect "imap.gmail.com"); inl (IMAP_login (Some "u") None);
     inl (LogConnectFailed IMAP4_error)].
Proof. reflexivity. Qed.

Section MainFacts.

Variable BeautifulSoup : markup -> PageElement.
Variable env : Environment.
Variable server : IMAP_server.
Variable net : Network.

Lemma establish_fails (p : Process) (e : exn) :
  connection_result env server = Raise e ->
  exists t,
    _establish_email_connection env server p = (Raise e, p ++ t)
    /\ events_of t = [].
Proof.
  intros H. unfold connection_result in H.
  unfold _establish_email_connection. run_P.
  destruct (connect server IMAP_SERVER) as [[]|e1]; cbn [bind_result] in H.
  - destruct (login server (EMAIL_USERNAME env) (EMAIL_PASSWORD env)) as [[]|e2];
      cbn [bind_result] in H.
    + destruct (select server "inbox") as [[]|e3]; [done|]. injection H as ->.
      destruct (is_IMAP4_error e); rewrite <- ?app_assoc; by eexists.
    + injection H as ->.
      destruct (is_IMAP4_error e); rewrite <- ?app_assoc; by eexists.
  - injection H as ->.
    destruct (is_IMAP4_error e); rewrite <- ?app_assoc; by eexists.
Qed.

Lemma establish_succeeds (p : Process) (u : unit) :
  connection_result env server = Ok u ->
  _establish_email_connection env server p
  = (Ok (mailbox_session server), p ++ connection_calls env ++ [inl LogConnected])
  /\ events_of (connection_calls env ++ [inl LogConnected]) = [].
Proof.
  intros H. unfold connection_result in H.
  unfold _establish_email_connection, connection_calls. run_P.
  destruct (connect server IMAP_SERVER) as [[]|]; [|done]. cbn [bind_result] in H.
  destruct (login server (EMAIL_USERNAME env) (EMAIL_PASSWORD env)) as [[]|]; [|done].
  cbn [bind_result] in H. rewrite H. by rewrite <- !app_assoc.
Qed.

(** The scan, as a step of the run. *)
Lemma scan_in_run (mail : IMAP4_SSL) (p : Process) :
  in_M (find_unsubscribe_links BeautifulSoup mail) p
  = (fst (find_unsubscribe_links BeautifulSoup mail []),
     p ++ map inr (IMAP_search :: body_trace BeautifulSoup mail ++ logout_trace mail)).
Proof.
  apply in_M_run. by rewrite !find_unsubscribe_links_trace.
Qed.

(** The run, step by step. *)
Lemma main_run (p : Process) :
  main BeautifulSoup env server net p
  = match _establish_email_connection env server p with
    | (Raise e, p1) => (Raise e, p1)
    | (Ok mail, p1) =>
        match in_M (find_unsubscribe_links BeautifulSoup mail) p1 with
        | (Raise e, p2) => (Raise e, p2)
        | (Ok [], p2) => (Ok tt, p2 ++ [inl LogNoLinks])
        | (Ok (link :: rest), p2) =>
            in_M (access_links net (LinkHandler default_retries) (link :: rest)) p2
        end
    end.
Proof.
  unfold main, EmailProcessor_init. unfold mbind at 1, P_bind at 1.
  destruct (_establish_email_connection env server p) as [[mail|e] p1]; [|done].
  unfold mbind at 1, P_bind at 1.
  destruct (in_M (find_unsubscribe_links BeautifulSoup mail) p1) as [[[|link rest]|e] p2];
    done.
Qed.

End MainFacts.

(** X14.  When the connection cannot be set up, [main] raises the exception
    of the call that failed and does nothing on the mailbox or the network:
    no search, no fetch, no logout, no HTTP request. *)
Theorem main_connection_failure
    (BeautifulSoup : markup -> PageElement) (env : Environment)
    (server : IMAP_server) (net : Network) (p : Process) (e : exn) :
  connection_result env server = Raise e ->
  exists t,
    main BeautifulSoup env server net p = (Raise e, p ++ t)
    /\ events_of t = [].
Proof.
  intros H. rewrite main_run.
  destruct (establish_fails env server p e H) as (t & -> & Ht). by exists t.
Qed.

Lemma main_connection_failure_witness :
  exists t,
    main one_anchor {| EMAIL_USERNAME := Some "me"; EMAIL_PASSWORD := None |}
      {| connect := fun _ => Ok tt;
         login := fun _ _ => Raise IMAP4_error;
         select := fun _ => Ok tt;
         mailbox_session :=
           {| search := Ok ["1"];
              fetch := fun _ => Some (Leaf (Some "text/html") 1 []);
              logout := Ok tt |} |}
      (fun _ _ => Responds 200) []
    = (Raise IMAP4_error, [] ++ t)
    /\ events_of t = [].
Proof.
  apply (main_connection_failure one_anchor
           {| EMAIL_USERNAME := Some "me"; EMAIL_PASSWORD := None |}
           {| connect := fun _ => Ok tt;
              login := fun _ _ => Raise IMAP4_error;
              select := fun _ => Ok tt;
              mailbox_session :=
                {| search := Ok ["1"];
                   fetch := fun _ => Some (Leaf (Some "text/html") 1 []);
                   logout := Ok tt |} |}
           (fun _ _ => Responds 200) [] IMAP4_error).
  reflexivity.
Defined.

Lemma scan_events_quiet (BeautifulSoup : markup -> PageElement) (mail : IMAP4_SSL) :
  let t := IMAP_search :: body_trace BeautifulSoup mail ++ logout_trace mail in
  requests_of t = [] /\ outcomes t = [] /\ logouts t = 1.
Proof.
  intros t. subst t. change (IMAP_search :: ?a) with ([IMAP_search] ++ a).
  rewrite !requests_of_app, !outcomes_app, !logouts_app.
  assert (requests_of (logout_trace mail) = [] /\ outcomes (logout_trace mail) = []
          /\ logouts (logout_trace mail) = 1)
    as (-> & -> & ->) by (unfold logout_trace; by destruct (logout mail)).
  unfold body_trace. destruct (search mail) as [ids|]; [|done].
  rewrite requests_of_app, outcomes_app, logouts_app,
    requests_of_scan_trace, outcomes_scan_trace, logouts_scan_trace.
  by destruct (scan_result BeautifulSoup (omap (fetch mail) ids) []).
Qed.

Lemma access_links_no_IMAP_call
    (net : Network) (retries : nat) (links : list string) (w : World) :
  exists t,
    access_links net (LinkHandler retries) links w = (Ok tt, w ++ t)
    /\ map fst (outcomes t) = links
    /\ List.filter is_IMAP_call t = [].
Proof.
  revert w. induction links as [|link rest IH]; intros w.
  - exists []. simpl. run_M. by rewrite app_nil_r.
  - rewrite access_links_cons.
    destruct (access_link_run net (LinkHandler retries) link w) as (k & o & -> & _).
    cbn [snd]. destruct (IH (w ++ replicate k (HTTP_get link) ++
      [Logged match o with
              | Success => LogAccessed link
              | HTTPFailure s => LogFailedStatus link s
              | NetworkFailure e => LogAccessError link e
              end])) as (t & -> & Ho & Himap).
    eexists. rewrite <- !app_assoc. split; [reflexivity|]. split.
    + rewrite !outcomes_app, outcomes_gets. simpl. rewrite <- Ho. by destruct o.
    + rewrite !List.filter_app, Himap. cbn [List.filter is_IMAP_call app].
      rewrite app_nil_r. clear. induction k as [|k IHk]; [done|]. exact IHk.
Qed.

Lemma not_in_events (e : SetupEvent) (t : World) : inl e ∉ map inr t.
Proof.
  intros H. apply list_elem_of_In, in_map_iff in H as (x & Hx & _). discriminate.
Qed.

(** X16.  When the scan raises, [main] raises the same exception and visits
    no link: no HTTP request is made, although the session was logged
    out. *)
Theorem main_scan_failure
    (BeautifulSoup : markup -> PageElement) (env : Environment)
    (server : IMAP_server) (net : Network) (p : Process) (u : unit) (e : exn) :
  connection_result env server = Ok u ->
  fst (find_unsubscribe_links BeautifulSoup (mailbox_session server) []) = Raise e ->
  exists t,
    main BeautifulSoup env server net p = (Raise e, p ++ t)
    /\ requests_of (events_of t) = []
    /\ outcomes (events_of t) = []
    /\ logouts (events_of t) = 1.
Proof.
  intros Hc Hs. rewrite main_run.
  destruct (establish_succeeds env server p u Hc) as [-> Hq].
  set (st := connection_calls env ++ [inl LogConnected]) in *.
  rewrite scan_in_run, Hs.
  destruct (scan_events_quiet BeautifulSoup (mailbox_session server)) as (Hr & Ho & Hl).
  eexists. rewrite <- !app_assoc. split; [reflexivity|].
  rewrite !events_of_app, events_of_inr, Hq. cbn [app].
  by rewrite Hr, Ho, Hl.
Qed.

Lemma main_scan_failure_witness :
  exists t,
    main one_anchor {| EMAIL_USERNAME := Some "me"; EMAIL_PASSWORD := Some "secret" |}
      {| connect := fun _ => Ok tt;
         login := fun _ _ => Ok tt;
         select := fun _ => Ok tt;
         mailbox_session :=
           {| search := Ok ["1"; "2"];
              fetch := fun i => if String.eqb i "1"
                                then Some (Leaf (Some "text/html") 1 [])
                                else Some (Leaf (Some "text/plain") 1 [xe9]);
              logout := Ok tt |} |}
      (fun _ _ => Responds 200) []
    = (Raise UnicodeDecodeError, [] ++ t)
    /\ requests_of (events_of t) = []
    /\ outcomes (events_of t) = []
    /\ logouts (events_of t) = 1.
Proof.
  apply (main_scan_failure one_anchor
           {| EMAIL_USERNAME := Some "me"; EMAIL_PASSWORD := Some "secret" |}
           {| connect := fun _ => Ok tt;
              login := fun _ _ => Ok tt;
              select := fun _ => Ok tt;
              mailbox_session :=
                {| search := Ok ["1"; "2"];
                   fetch := fun i => if String.eqb i "1"
                                     then Some (Leaf (Some "text/html") 1 [])
                                     else Some (Leaf (Some "text/plain") 1 [xe9]);
                   logout := Ok tt |} |}
           (fun _ _ => Responds 200) [] tt UnicodeDecodeError); reflexivity.
Defined.

(** X17.  Every run of [main] is in two phases.  The first holds everything
    done on the mailbox and makes no HTTP request; the second holds the
    visit and makes no call on the IMAP session.  When the second phase
    makes a request, the first has logged the session out, exactly once. *)
Theorem main_mailbox_then_network
    (BeautifulSoup : markup -> PageElement) (env : Environment)
    (server : IMAP_server) (net : Network) (p : Process) :
  exists t1 t2,
    snd (main BeautifulSoup env server net p) = p ++ t1 ++ t2
    /\ requests_of (events_of t1) = []
    /\ List.filter is_IMAP_call (events_of t2) = []
    /\ (requests_of (events_of t2) <> [] -> logouts (events_of t1) = 1).
Proof.
  rewrite main_run.
  destruct (connection_result env server) as [u|e] eqn:Hc.
  - destruct (establish_succeeds env server p u Hc) as [-> Hq].
    set (st := connection_calls env ++ [inl LogConnected]) in *.
    rewrite scan_in_run.
    destruct (scan_events_quiet BeautifulSoup (mailbox_session server)) as (Hr & _ & Hl).
    set (scan := IMAP_search :: body_trace BeautifulSoup (mailbox_session server)
                 ++ logout_trace (mailbox_session server)) in *.
    assert (Hfirst : requests_of (events_of (st ++ map inr scan)) = []
                     /\ logouts (events_of (st ++ map inr scan)) = 1).
    { rewrite !events_of_app, events_of_inr, Hq. cbn [app]. by rewrite Hr, Hl. }
    destruct Hfirst as [Hr1 Hl1].
    destruct (fst (find_unsubscribe_links BeautifulSoup (mailbox_session server) []))
      as [[|link rest]|e].
    + exists (st ++ map inr scan), [inl LogNoLinks].
      cbn [snd]. rewrite <- !app_assoc. split; [done|].
      split; [done|]. by split.
    + destruct (access_links_no_IMAP_call net default_retries (link :: rest)
                  (events_of ((p ++ st) ++ map inr scan))) as (t & Hrun & _ & Himap).
      rewrite (in_M_run _ _ _ _ Hrun). cbn [snd].
      exists (st ++ map inr scan), (map inr t).
      rewrite <- !app_assoc. split; [done|].
      rewrite events_of_inr. split; [done|]. by split.
    + exists (st ++ map inr scan), [].
      cbn [snd]. rewrite <- !app_assoc, app_nil_r. split; [done|].
      split; [done|]. by split.
  - destruct (establish_fails env server p e Hc) as (t & -> & Ht).
    exists t, []. cbn [snd]. rewrite app_nil_r, Ht. by repeat split.
Qed.

(** ** Letter case *)

Lemma lower_app (a b : string) : Text.lower (a +:+ b) = Text.lower a +:+ Text.lower b.
Proof.
  induction a as [|c a IH]; [done|].
  rewrite TextFacts.append_cons. cbn [Text.lower].
  by rewrite TextFacts.append_cons, IH.
Qed.

(** X18.  The word is matched in any letter case: an [a] tag, at any depth
    of the document, whose [href] contains a spelling of "unsubscribe" in
    any mix of upper and lower case has its [href] returned. *)
Theorem any_case_word_is_returned
    (BeautifulSoup : markup -> PageElement) (html_content : markup)
    (a : PageElement) (word link : string) :
  Element_of a (BeautifulSoup html_content) ->
  tag_name a = Some "a" ->
  tag_get a "href" = Some link ->
  Text.lower word = "unsubscribe" ->
  Text.Substring word link ->
  link ∈ _parse_html_for_links BeautifulSoup html_content.
Proof.
  intros Ha Hn Hh Hw (pre & post & ->).
  unfold _parse_html_for_links, unsubscribe_hrefs, find_all_a_href.
  apply list_elem_of_omap. exists a. split.
  - apply list_elem_of_In, filter_In. split.
    + by apply list_elem_of_In, descendants_nested.
    + rewrite Hh. apply andb_true_iff. split; apply bool_decide_eq_true_2; eauto.
  - rewrite Hh.
    assert (Hc : Text.contains "unsubscribe" (Text.lower (pre +:+ word +:+ post)) = true).
    { apply TextFacts.contains_spec. rewrite !lower_app, Hw.
      by exists (Text.lower pre), (Text.lower post). }
    by rewrite Hc.
Qed.

Lemma any_case_word_is_returned_witness :
  "https://x.com/UnSubscribe?u=7"
  ∈ _parse_html_for_links
      (fun _ =>
         Tag "[document]" ∅
           [Tag "table" ∅
              [Tag "a" {[ "href" := "https://x.com/UnSubscribe?u=7" ]} []]])
      (MarkupBytes []).
Proof.
  apply (any_case_word_is_returned _ (MarkupBytes [])
           (Tag "a" {[ "href" := "https://x.com/UnSubscribe?u=7" ]} [])
           "UnSubscribe" "https://x.com/UnSubscribe?u=7").
  - eapply Element_deeper; [apply list_elem_of_here|].
    apply Element_child, list_elem_of_here.
  - reflexivity.
  - reflexivity.
  - reflexivity.
  - by exists "https://x.com/", "?u=7".
Defined.

(** * Properties of the session in full and of the defects *)

(** ** The visit, with what the session does around a status *)

Lemma last_attempt_snoc (net : Transport.Network) (w : World) (url : string) :
  last_attempt net (w ++ [HTTP_get url]) (net (requests_of w) url).
Proof. by exists w, url. Qed.

Section TransportFacts.

Variable prepare_url : string -> Result string.
Variable net : Transport.Network.

Lemma transport_urlopen_step (fl : list Z) (n : nat) (url : string) (w : World) :
  Transport.urlopen net fl n url w =
    match net (requests_of w) url with
    | Transport.Answers r =>
        if Transport.is_retry fl n r then
          match n with
          | O => (Raise (RetryError (Transport.status_code r)), w ++ [HTTP_get url])
          | S k => Transport.urlopen net fl k url (w ++ [HTTP_get url])
          end
        else (Ok r, w ++ [HTTP_get url])
    | Transport.Fails =>
        match n with
        | O => (Raise ConnectionError, w ++ [HTTP_get url])
        | S k => Transport.urlopen net fl k url (w ++ [HTTP_get url])
        end
    | Transport.Breaks e => (Raise e, w ++ [HTTP_get url])
    end.
Proof.
  destruct n; simpl; run_M; unfold Transport.send_request;
    destruct (net (requests_of w) url) as [r| |e]; try done;
    by destruct (Transport.is_retry fl _ r).
Qed.

(** The request loop ends after at least one and at most [n + 1] requests,
    all for its URL.  The response it returns is the answer to the last of
    them; the exception it raises is its own, of class [RequestException],
    or the one the last request raised. *)
Lemma transport_urlopen_run (fl : list Z) (n : nat) (url : string) (w : World) :
  exists k res,
    Transport.urlopen net fl n url w = (res, w ++ replicate k (HTTP_get url))
    /\ 1 <= k <= S n
    /\ match res with
       | Ok r => last_attempt net (w ++ replicate k (HTTP_get url)) (Transport.Answers r)
       | Raise e =>
           last_attempt net (w ++ replicate k (HTTP_get url)) (Transport.Breaks e)
           \/ is_RequestException e = true
       end.
Proof.
  revert w. induction n as [|n IH]; intros w; rewrite transport_urlopen_step.
  - pose proof (last_attempt_snoc net w url) as Hl.
    destruct (net (requests_of w) url) as [r| |e] eqn:Hn.
    + destruct (Transport.is_retry fl 0 r).
      * exists 1, (Raise (RetryError (Transport.status_code r))).
        split; [done|]. split; [lia|]. by right.
      * exists 1, (Ok r). split; [done|]. split; [lia|]. exact Hl.
    + exists 1, (Raise ConnectionError). split; [done|]. split; [lia|]. by right.
    + exists 1, (Raise e). split; [done|]. split; [lia|]. left. exact Hl.
  - assert (Hrec : exists k res,
              Transport.urlopen net fl n url (w ++ [HTTP_get url])
                = (res, w ++ replicate k (HTTP_get url))
              /\ 1 <= k <= S (S n)
              /\ match res with
                 | Ok r =>
                     last_attempt net (w ++ replicate k (HTTP_get url)) (Transport.Answers r)
                 | Raise e =>
                     last_attempt net (w ++ replicate k (HTTP_get url)) (Transport.Breaks e)
                     \/ is_RequestException e = true
                 end).
    { destruct (IH (w ++ [HTTP_get url])) as (k & res & -> & Hk & Hres).
      exists (S k), res. cbn [replicate]. rewrite <- app_assoc in Hres |- *.
      split; [done|]. split; [lia | done]. }
    pose proof (last_attempt_snoc net w url) as Hl.
    destruct (net (requests_of w) url) as [r| |e] eqn:Hn.
    + destruct (Transport.is_retry fl (S n) r); [exact Hrec|].
      exists 1, (Ok r). split; [done|]. split; [lia|]. exact Hl.
    + exact Hrec.
    + exists 1, (Raise e). split; [done|]. split; [lia|]. left. exact Hl.
Qed.

Lemma transport_send_run (session : Session) (url : string) (w : World) :
  exists t res,
    Transport.send net session url w = (res, w ++ t)
    /\ outcomes t = []
    /\ match res with
       | Ok r => last_attempt net (w ++ t) (Transport.Answers r)
       | Raise e =>
           last_attempt net (w ++ t) (Transport.Breaks e) \/ is_RequestException e = true
       end.
Proof.
  unfold Transport.send. unfold mbind at 1, M_bind at 1, bind at 1, lift at 1.
  destruct (get_adapter session url) as [adapter|e] eqn:Ha.
  - destruct (transport_urlopen_run (status_forcelist (max_retries adapter))
                (total (max_retries adapter)) url w) as (k & res & -> & _ & Hres).
    eexists _, res. split; [reflexivity|]. split; [apply outcomes_gets | done].
  - exists [], (Raise e). rewrite app_nil_r. split; [done|]. split; [done|].
    right. unfold get_adapter in Ha.
    destruct (List.find _ (adapters session)); [done|]. by injection Ha as <-.
Qed.

Lemma transport_resolve_run (session : Session) (allowed : nat)
    (resp : Transport.Response) (w : World) :
  last_attempt net w (Transport.Answers resp) ->
  exists t res,
    Transport.resolve_redirects net session allowed resp w = (res, w ++ t)
    /\ outcomes t = []
    /\ match res with
       | Ok r => last_attempt net (w ++ t) (Transport.Answers r)
       | Raise e =>
           last_attempt net (w ++ t) (Transport.Breaks e) \/ is_RequestException e = true
       end.
Proof.
  revert resp w. induction allowed as [|allowed IH]; intros resp w Hresp;
    cbn [Transport.resolve_redirects]; destruct (Transport.redirect_target resp) as [url|].
  - exists [], (Raise TooManyRedirects). run_M. rewrite app_nil_r.
    split; [done|]. split; [done|]. by right.
  - exists [], (Ok resp). run_M. by rewrite app_nil_r.
  - unfold mbind at 1, M_bind at 1, bind at 1.
    destruct (transport_send_run session url w) as (t1 & res1 & -> & Ho1 & Hres1).
    destruct res1 as [next|e].
    + destruct (IH next (w ++ t1) Hres1) as (t2 & res2 & -> & Ho2 & Hres2).
      exists (t1 ++ t2), res2. rewrite <- app_assoc in Hres2 |- *. split; [done|].
      split; [by rewrite outcomes_app, Ho1, Ho2 | done].
    + by exists t1, (Raise e).
  - exists [], (Ok resp). run_M. by rewrite app_nil_r.
Qed.

(** [session.get]: the status it returns is that of the answer to the last
    request; an exception that is no [RequestException] is the one the last
    request raised, or the one the preparation of the link raised, before
    any request. *)
Lemma transport_session_get_run (session : Session) (link : string) (w : World) :
  exists t res,
    Transport.session_get prepare_url net session link w = (res, w ++ t)
    /\ outcomes t = []
    /\ match res with
       | Ok status =>
           exists r, last_attempt net (w ++ t) (Transport.Answers r)
                     /\ Transport.status_code r = status
       | Raise e =>
           last_attempt net (w ++ t) (Transport.Breaks e)
           \/ (prepare_url link = Raise e /\ t = [])
           \/ is_RequestException e = true
       end.
Proof.
  unfold Transport.session_get. unfold mbind at 1, M_bind at 1, bind at 1, lift at 1.
  destruct (prepare_url link) as [url|e] eqn:Hp.
  - unfold mbind at 1, M_bind at 1, bind at 1.
    destruct (transport_send_run session url w) as (t1 & res1 & -> & Ho1 & Hres1).
    destruct res1 as [resp|e].
    + unfold mbind at 1, M_bind at 1, bind at 1.
      destruct (transport_resolve_run session Transport.max_redirects resp
                  (w ++ t1) Hres1) as (t2 & res2 & -> & Ho2 & Hres2).
      rewrite <- app_assoc in Hres2 |- *.
      destruct res2 as [final|e].
      * exists (t1 ++ t2), (Ok (Transport.status_code final)). run_M.
        split; [done|]. split; [by rewrite outcomes_app, Ho1, Ho2|]. by exists final.
      * exists (t1 ++ t2), (Raise e). split; [done|].
        split; [by rewrite outcomes_app, Ho1, Ho2|].
        destruct Hres2 as [H|H]; [by left | by right; right].
    + exists t1, (Raise e). split; [done|]. split; [done|].
      destruct Hres1 as [H|H]; [by left | by right; right].
  - exists [], (Raise e). rewrite app_nil_r. split; [done|]. split; [done|].
    right. by left.
Qed.

(** One link: either the visit returns with one outcome for the link, a
    success only when the last request was answered with status 200; or an
    exception that is no [RequestException] leaves it, and the link has no
    outcome. *)
Lemma transport_access_link_run (session : Session) (link : string) (w : World) :
  exists t res,
    Transport.access_link prepare_url net session link w = (res, w ++ t)
    /\ match res with
       | Ok _ =>
           exists o, outcomes t = [(link, o)]
             /\ (o = Success ->
                 exists t0 r,
                   t = t0 ++ [Logged (LogAccessed link)]
                   /\ last_attempt net (w ++ t0) (Transport.Answers r)
                   /\ Transport.status_code r = 200%Z)
       | Raise e =>
           outcomes t = [] /\ is_RequestException e = false
           /\ (last_attempt net (w ++ t) (Transport.Breaks e)
               \/ (prepare_url link = Raise e /\ t = []))
       end.
Proof.
  unfold Transport.access_link, try_except.
  unfold mbind at 1, M_bind at 1, bind at 1.
  destruct (transport_session_get_run session link w) as (t & res & -> & Ho & Hres).
  destruct res as [status|e].
  - destruct (Z.eqb_spec status 200) as [->|Hs].
    + exists (t ++ [Logged (LogAccessed link)]), (Ok tt). run_M. rewrite <- app_assoc.
      split; [done|]. exists Success. rewrite outcomes_app, Ho. split; [done|].
      intros _. destruct Hres as (r & Hl & Hst). by exists t, r.
    + exists (t ++ [Logged (LogFailedStatus link status)]), (Ok tt). run_M.
      rewrite <- app_assoc. split; [done|]. exists (HTTPFailure status).
      rewrite outcomes_app, Ho. by split.
  - destruct (is_RequestException e) eqn:He.
    + exists (t ++ [Logged (LogAccessError link e)]), (Ok tt). run_M.
      rewrite <- app_assoc. split; [done|]. exists (NetworkFailure e).
      rewrite outcomes_app, Ho. by split.
    + exists t, (Raise e). split; [done|]. split; [done|]. split; [done|].
      destruct Hres as [H|[H|H]]; [by left | by right | congruence].
Qed.

End TransportFacts.

(** The visit of a list of links: one outcome per link when it returns; an
    exception that is no [RequestException] ends it at the link it came
    from. *)
Lemma transport_access_links_run
    (prepare_url : string -> Result string) (net : Transport.Network)
    (session : Session) (links : list string) (w : World) :
  exists t res,
    Transport.access_links prepare_url net session links w = (res, w ++ t)
    /\ match res with
       | Ok _ => map fst (outcomes t) = links
       | Raise e =>
           is_RequestException e = false
           /\ exists visited culprit rest,
                links = visited ++ culprit :: rest
                /\ map fst (outcomes t) = visited
                /\ (last_attempt net (w ++ t) (Transport.Breaks e)
                    \/ prepare_url culprit = Raise e)
       end
    /\ ((forall h url e, net h url = Transport.Breaks e -> is_RequestException e = true) ->
        (forall link e,
           link ∈ links -> prepare_url link = Raise e -> is_RequestException e = true) ->
        res = Ok tt).
Proof.
  revert w. induction links as [|link rest IH]; intros w.
  - exists [], (Ok tt). simpl. run_M. by rewrite app_nil_r.
  - cbn [Transport.access_links]. unfold mbind at 1, M_bind at 1, bind at 1.
    destruct (transport_access_link_run prepare_url net session link w)
      as (t1 & res1 & -> & Hres1).
    destruct res1 as [[]|e].
    + destruct Hres1 as (o & Ho & _).
      destruct (IH (w ++ t1)) as (t2 & res2 & -> & Hres2 & Hok).
      exists (t1 ++ t2), res2. rewrite <- app_assoc in Hres2 |- *.
      split; [done|]. split.
      * rewrite outcomes_app, Ho. destruct res2 as [[]|e2].
        -- cbn. by rewrite Hres2.
        -- destruct Hres2 as (He & visited & culprit & rest' & -> & Hv & Hfrom).
           split; [done|]. exists (link :: visited), culprit, rest'.
           split; [done|]. split; [|done]. cbn. by rewrite Hv.
      * intros Hnet Hprep. apply Hok; [done|].
        intros l e Hl. apply Hprep. by apply list_elem_of_further.
    + destruct Hres1 as (Ho & He & Hfrom).
      exists t1, (Raise e). split; [done|]. split.
      * split; [done|]. exists [], link, rest. rewrite Ho.
        split; [done|]. split; [done|]. destruct Hfrom as [H|[H _]]; [by left | by right].
      * intros Hnet Hprep. destruct Hfrom as [(before & url & _ & Hb)|[Hp _]].
        -- specialize (Hnet _ _ _ Hb). congruence.
        -- specialize (Hprep _ _ (list_elem_of_here _ _) Hp). congruence.
Qed.

(** C6.  For every preparation of links, every network, every session and
    every list of links: when [access_links] returns, it has reported
    exactly one outcome per link, in the order of the links.  Retries that
    run out, statuses that are not retried, refused links and redirect
    loops all end as the outcome of their link and the visit goes on.  The
    visit does not always return.  The handler of the loop catches
    [RequestException] only: an exception of another class, raised by a
    request or by the preparation of a link, leaves [access_links].  The
    links before the one it came from have their outcome, that link and the
    links after it have none; when a request raised it, that request is the
    last event of the visit. *)
Theorem access_links_outcomes
    (prepare_url : string -> Result string) (net : Transport.Network)
    (session : Session) (links : list string) (w : World) :
  exists t res,
    Transport.access_links prepare_url net session links w = (res, w ++ t)
    /\ match res with
       | Ok _ => map fst (outcomes t) = links
       | Raise e =>
           is_RequestException e = false
           /\ exists visited culprit rest,
                links = visited ++ culprit :: rest
                /\ map fst (outcomes t) = visited
                /\ (last_attempt net (w ++ t) (Transport.Breaks e)
                    \/ prepare_url culprit = Raise e)
       end
    /\ ((forall h url e, net h url = Transport.Breaks e -> is_RequestException e = true) ->
        (forall link e,
           link ∈ links -> prepare_url link = Raise e -> is_RequestException e = true) ->
        res = Ok tt).
Proof. apply transport_access_links_run. Qed.

Lemma access_links_outcomes_witness :
  let net : Transport.Network := fun _ url =>
    if String.eqb url "http://a/unsubscribe" then Transport.Answers (Transport.bare_response 503)
    else if String.eqb url "http://b/unsubscribe" then Transport.Answers (Transport.bare_response 404)
    else Transport.Answers (Transport.bare_response 200) in
  exists t,
    Transport.access_links Ok net (LinkHandler 1)
      ["http://a/unsubscribe"; "http://b/unsubscribe"; "http://c/unsubscribe"] []
    = (Ok tt, [] ++ t)
    /\ map fst (outcomes t)
       = ["http://a/unsubscribe"; "http://b/unsubscribe"; "http://c/unsubscribe"].
Proof.
  intros net.
  destruct (access_links_outcomes Ok net (LinkHandler 1)
              ["http://a/unsubscribe"; "http://b/unsubscribe"; "http://c/unsubscribe"] [])
    as (t & res & Hrun & Hres & Hok).
  assert (res = Ok tt) as ->.
  { apply Hok.
    - intros h url e. unfold net.
      destruct (String.eqb url "http://a/unsubscribe"); [done|].
      by destruct (String.eqb url "http://b/unsubscribe").
    - done. }
  by exists t.
Defined.

(** A list whose first link has a host the transport cannot connect to as
    written: the error is no [RequestException], it leaves [access_links],
    no outcome is reported and the second link is never requested. *)
Lemma access_links_aborted :
  let net : Transport.Network := fun _ url =>
    if String.eqb url "http://a..b/unsubscribe" then Transport.Breaks LocationParseError
    else Transport.Answers (Transport.bare_response 200) in
  let run :=
    Transport.access_links Ok net (LinkHandler 3)
      ["http://a..b/unsubscribe"; "http://c/unsubscribe"] [] in
  fst run = Raise LocationParseError
  /\ fst run <> Ok tt
  /\ outcomes (snd run) = []
  /\ attempts "http://c/unsubscribe" (snd run) = 0.
Proof. repeat split; discriminate. Qed.




(** ** Responses without headers *)

Lemma is_retry_bare (fl : list Z) (n : nat) (status : Z) :
  Transport.is_retry fl n (Transport.bare_response status) = is_retry fl status.
Proof.
  unfold Transport.is_retry, is_retry. cbn [Transport.bare_response Transport.retry_after
    Transport.status_code]. by rewrite andb_false_r, orb_false_r.
Qed.

Lemma transport_urlopen_bare (net : Network) (fl : list Z) (n : nat) (url : string)
    (w : World) :
  Transport.urlopen (bare_network net) fl n url w
  = match urlopen net fl n url w with
    | (Ok status, w') => (Ok (Transport.bare_response status), w')
    | (Raise e, w') => (Raise e, w')
    end.
Proof.
  revert w. induction n as [|n IH]; intros w;
    rewrite transport_urlopen_step, urlopen_step; unfold bare_network at 1;
    destruct (net (requests_of w) url) as [status|]; rewrite ?is_retry_bare;
    try destruct (is_retry fl status); try done; apply IH.
Qed.

(** On links that are requested as written and responses without headers,
    the visit is the one of [access_links]. *)
Lemma access_links_bare
    (prepare_url : string -> Result string) (net : Network) (session : Session)
    (links : list string) (w : World) :
  Forall (fun link => prepare_url link = Ok link) links ->
  Transport.access_links prepare_url (bare_network net) session links w
  = access_links net session links w.
Proof.
  intros Hp. revert w. induction Hp as [|link rest Hl _ IH]; intros w; [done|].
  cbn [Transport.access_links access_links].
  assert (Hone : Transport.access_link prepare_url (bare_network net) session link w
                 = access_link net session link w).
  { assert (Hget : Transport.session_get prepare_url (bare_network net) session link w
                   = session_get net session link w).
    { rewrite session_get_adapter. unfold Transport.session_get.
      unfold mbind at 1, M_bind at 1, bind at 1, lift at 1. rewrite Hl.
      unfold mbind at 1, M_bind at 1, bind at 1. unfold Transport.send.
      unfold mbind at 1, M_bind at 1, bind at 1, lift at 1.
      destruct (get_adapter session link) as [adapter|e]; [|done].
      rewrite transport_urlopen_bare.
      destruct (urlopen net _ _ link w) as [[status|e] w']; [|done].
      unfold mbind at 1, M_bind at 1, bind at 1.
      assert (Hnone : Transport.redirect_target (Transport.bare_response status) = None)
        by (unfold Transport.redirect_target; by destruct (bool_decide _)).
      unfold Transport.max_redirects. cbn [Transport.resolve_redirects].
      rewrite Hnone. by run_M. }
    unfold Transport.access_link, access_link, try_except, mbind, M_bind, bind.
    by rewrite Hget. }
  unfold mbind, M_bind, bind. rewrite Hone.
  destruct (access_link net session link w) as [[[]|e] w']; [apply IH | done].
Qed.

(** ** Extraction and the defects of the parts *)

Section RegisteringFacts.

Variable BeautifulSoup : markup -> PageElement.
Variable decode_defects : Message -> list Defect.

Lemma registering_extract_loop (parts : list Message) (acc : list string) (d : Defects) :
  Registering.extract_loop BeautifulSoup decode_defects parts acc d
  = (extract_loop BeautifulSoup parts acc,
     d ++ concat (map (fun part => map (pair part) (decode_defects part))
                    (List.filter
                       (fun part => String.eqb (get_content_type part) "text/html")
                       parts))).
Proof.
  revert acc d. induction parts as [|part parts IH]; intros acc d.
  - cbn. by rewrite app_nil_r.
  - cbn [Registering.extract_loop extract_loop List.filter].
    destruct (String.eqb (get_content_type part) "text/html") eqn:E; [|apply IH].
    destruct part as [c o payload|mt sub ps].
    + cbn [Registering.get_payload get_payload_decode map concat].
      by rewrite IH, <- app_assoc.
    + by rewrite container_not_html in E.
Qed.

Lemma registering_extract (msg : Message) (d : Defects) :
  Registering._extract_links_from_email BeautifulSoup decode_defects msg d
  = (_extract_links_from_email BeautifulSoup msg, d ++ registered decode_defects msg).
Proof.
  unfold Registering._extract_links_from_email, _extract_links_from_email,
    registered, decoded_parts.
  destruct msg as [c o payload|mt sub ps]; cbn [is_multipart].
  - cbn [Registering.get_payload get_payload_decode map concat]. by rewrite app_nil_r.
  - apply registering_extract_loop.
Qed.

End RegisteringFacts.

(** C9 (amended).  The links of an extraction depend on the message only: a
    second run returns the same list, or raises the same exception, as the
    first, and both are what [_extract_links_from_email] gives for the
    message.  Extraction is not free of effects on the message.  Each run
    registers, on every part whose payload it asks for, the defects that
    decoding finds there, after those the part already had, also when the
    run ends in an exception; it changes nothing else.  So a run leaves the
    message as it found it exactly when none of those parts has a decoding
    defect. *)
Theorem extract_links_registers_defects
    (BeautifulSoup : markup -> PageElement) (decode_defects : Message -> list Defect)
    (msg : Message) (d : Defects) :
  let run := Registering._extract_links_from_email BeautifulSoup decode_defects msg in
  fst (run d) = _extract_links_from_email BeautifulSoup msg
  /\ fst (run (snd (run d))) = fst (run d)
  /\ snd (run d) = d ++ registered decode_defects msg
  /\ snd (run (snd (run d)))
     = d ++ registered decode_defects msg ++ registered decode_defects msg
  /\ (snd (run d) = d
      <-> forall part, part ∈ decoded_parts msg -> decode_defects part = []).
Proof.
  intros run. subst run. rewrite !registering_extract. cbn [fst snd].
  rewrite ?registering_extract. cbn [fst snd]. rewrite <- ?app_assoc.
  repeat split; try done.
  - intros H part Hp.
    assert (Hnil : registered decode_defects msg = []).
    { apply (app_inv_head d). by rewrite app_nil_r. }
    unfold registered in Hnil.
    destruct (decode_defects part) as [|x xs] eqn:Hd; [done|].
    assert (Hin : (part, x) ∈ concat (map (fun part => map (pair part) (decode_defects part))
                                         (decoded_parts msg))).
    { apply list_elem_of_In, in_concat. eexists. split.
      - apply in_map. apply list_elem_of_In, Hp.
      - rewrite Hd. by left. }
    rewrite Hnil in Hin. by apply elem_of_nil in Hin.
  - intros H. rewrite <- (app_nil_r d) at 2. f_equal. unfold registered.
    induction (decoded_parts msg) as [|part parts IH]; [done|]. cbn [map concat].
    rewrite (H part) by apply list_elem_of_here. cbn.
    apply IH. intros p Hp. apply H. by apply list_elem_of_further.
Qed.

(** A message with a [text/html] part whose base64 body has lost its
    padding: two runs return the same links, and each leaves a defect more
    on the part. *)
Lemma extract_links_modifies_message :
  let part := Leaf (Some "text/html") 2 [x3c; x61] in
  let msg := Container multipart "alternative" [Leaf (Some "text/plain") 2 []; part] in
  let decode_defects (p : Message) : list Defect :=
    if String.eqb (get_content_type p) "text/html" then [InvalidBase64PaddingDefect]
    else [] in
  let run := Registering._extract_links_from_email one_anchor decode_defects msg in
  fst (run []) = Ok ["https://x.com/unsubscribe?u=1"]
  /\ fst (run (snd (run []))) = Ok ["https://x.com/unsubscribe?u=1"]
  /\ snd (run []) = [(part, InvalidBase64PaddingDefect)]
  /\ snd (run []) <> []
  /\ snd (run (snd (run [])))
     = [(part, InvalidBase64PaddingDefect); (part, InvalidBase64PaddingDefect)].
Proof. repeat split; discriminate. Qed.

(** ** Bounds, recovery and refusals of the visit *)

Lemma last_attempt_answer (net : Transport.Network) (w : World) (r : Transport.Response) :
  last_attempt net w (Transport.Answers r) -> exists h u, net h u = Transport.Answers r.
Proof. intros (before & url & _ & H). eauto. Qed.

Section BoundFacts.

Variable prepare_url : string -> Result string.
Variable net : Transport.Network.
Variable retries : nat.

(** One [send] through the session of the program: at most [retries + 1]
    requests, all for its URL. *)
Lemma transport_send_bound (url : string) (w : World) :
  exists k res,
    Transport.send net (LinkHandler retries) url w = (res, w ++ replicate k (HTTP_get url))
    /\ k <= S retries
    /\ match res with
       | Ok r => last_attempt net (w ++ replicate k (HTTP_get url)) (Transport.Answers r)
       | Raise _ => True
       end.
Proof.
  unfold Transport.send. unfold mbind at 1, M_bind at 1, bind at 1, lift at 1.
  rewrite get_adapter_LinkHandler. destruct (is_http url).
  - cbn [max_retries status_forcelist total].
    destruct (transport_urlopen_run net [429; 500; 502; 503; 504]%Z retries url w)
      as (k & res & -> & Hk & Hres).
    exists k, res. split; [done|]. split; [lia|]. by destruct res.
  - exists 0, (Raise InvalidSchema). cbn [replicate]. rewrite app_nil_r.
    split; [done|]. split; [lia | done].
Qed.

Lemma transport_resolve_bound (allowed : nat) (resp : Transport.Response) (w : World) :
  (exists h u, net h u = Transport.Answers resp) ->
  exists t res,
    Transport.resolve_redirects net (LinkHandler retries) allowed resp w = (res, w ++ t)
    /\ length (requests_of t) <= allowed * S retries
    /\ outcomes t = []
    /\ forall url, url ∈ requests_of t ->
         exists h u r, net h u = Transport.Answers r
                       /\ Transport.redirect_target r = Some url.
Proof.
  revert resp w. induction allowed as [|allowed IH]; intros resp w Hresp;
    cbn [Transport.resolve_redirects];
    destruct (Transport.redirect_target resp) as [url|] eqn:Hred.
  - exists [], (Raise TooManyRedirects). run_M. rewrite app_nil_r.
    split; [done|]. split; [cbn; lia|]. split; [done|].
    intros u Hu. by apply elem_of_nil in Hu.
  - exists [], (Ok resp). run_M. rewrite app_nil_r.
    split; [done|]. split; [cbn; lia|]. split; [done|].
    intros u Hu. by apply elem_of_nil in Hu.
  - unfold mbind at 1, M_bind at 1, bind at 1.
    destruct (transport_send_bound url w) as (k & res1 & -> & Hk & Hres1).
    assert (Hfrom : forall u, u ∈ requests_of (replicate k (HTTP_get url)) ->
              exists h v r, net h v = Transport.Answers r
                            /\ Transport.redirect_target r = Some u).
    { intros u Hu. rewrite requests_of_gets in Hu.
      apply elem_of_replicate in Hu as [-> _].
      destruct Hresp as (h & v & Hv). eauto. }
    destruct res1 as [next|e].
    + destruct (IH next (w ++ replicate k (HTTP_get url)) (last_attempt_answer _ _ _ Hres1))
        as (t2 & res2 & -> & Hlen & Ho & Hreq).
      exists (replicate k (HTTP_get url) ++ t2), res2. rewrite <- app_assoc.
      split; [done|]. rewrite requests_of_app, length_app, requests_of_gets, length_replicate.
      split; [lia|]. split; [by rewrite outcomes_app, outcomes_gets, Ho|].
      intros u Hu. apply elem_of_app in Hu as [Hu|Hu]; [|by apply Hreq].
      apply Hfrom. by rewrite requests_of_gets.
    + exists (replicate k (HTTP_get url)), (Raise e). split; [done|].
      rewrite requests_of_gets, length_replicate. split; [lia|].
      split; [apply outcomes_gets|]. rewrite <- (requests_of_gets k url). exact Hfrom.
  - exists [], (Ok resp). run_M. rewrite app_nil_r.
    split; [done|]. split; [cbn; lia|]. split; [done|].
    intros u Hu. by apply elem_of_nil in Hu.
Qed.

(** One link: at most [retries + 1] requests for it and for each redirect
    followed, and at most one outcome. *)
Lemma transport_access_link_bound (link : string) (w : World) :
  exists t res,
    Transport.access_link prepare_url net (LinkHandler retries) link w = (res, w ++ t)
    /\ length (requests_of t) <= S Transport.max_redirects * S retries
    /\ length (outcomes t) <= 1
    /\ forall url, url ∈ requests_of t -> may_request prepare_url net [link] url.
Proof.
  assert (Hget : exists t res,
            Transport.session_get prepare_url net (LinkHandler retries) link w
              = (res, w ++ t)
            /\ length (requests_of t) <= S Transport.max_redirects * S retries
            /\ outcomes t = []
            /\ forall url, url ∈ requests_of t -> may_request prepare_url net [link] url).
  { unfold Transport.session_get. unfold mbind at 1, M_bind at 1, bind at 1, lift at 1.
    destruct (prepare_url link) as [url|e] eqn:Hp.
    - unfold mbind at 1, M_bind at 1, bind at 1.
      destruct (transport_send_bound url w) as (k & res1 & -> & Hk & Hres1).
      assert (Hfrom : forall u, u ∈ requests_of (replicate k (HTTP_get url)) ->
                may_request prepare_url net [link] u).
      { intros u Hu. rewrite requests_of_gets in Hu.
        apply elem_of_replicate in Hu as [-> _]. left. exists link.
        split; [apply list_elem_of_here | done]. }
      destruct res1 as [resp|e].
      + unfold mbind at 1, M_bind at 1, bind at 1.
        destruct (transport_resolve_bound Transport.max_redirects resp
                    (w ++ replicate k (HTTP_get url)) (last_attempt_answer _ _ _ Hres1))
          as (t2 & res2 & -> & Hlen & Ho & Hreq).
        assert (Hall : length (requests_of (replicate k (HTTP_get url) ++ t2))
                       <= S Transport.max_redirects * S retries
                /\ outcomes (replicate k (HTTP_get url) ++ t2) = []
                /\ forall u, u ∈ requests_of (replicate k (HTTP_get url) ++ t2) ->
                     may_request prepare_url net [link] u).
        { rewrite requests_of_app, length_app, requests_of_gets, length_replicate.
          split; [lia|]. split; [by rewrite outcomes_app, outcomes_gets, Ho|].
          intros u Hu. apply elem_of_app in Hu as [Hu|Hu].
          - apply Hfrom. by rewrite requests_of_gets.
          - right. by apply Hreq. }
        destruct res2 as [final|e]; run_M; rewrite <- app_assoc; eexists _, _;
          (split; [reflexivity | exact Hall]).
      + exists (replicate k (HTTP_get url)), (Raise e). split; [done|].
        rewrite requests_of_gets, length_replicate. split; [lia|].
        split; [apply outcomes_gets|]. rewrite <- (requests_of_gets k url). exact Hfrom.
    - exists [], (Raise e). rewrite app_nil_r. split; [done|]. split; [cbn; lia|].
      split; [done|]. intros u Hu. by apply elem_of_nil in Hu. }
  destruct Hget as (t & res & Hrun & Hlen & Ho & Hreq).
  unfold Transport.access_link, try_except.
  unfold mbind at 1, M_bind at 1, bind at 1. rewrite Hrun.
  assert (Hlog : forall r,
            length (requests_of (t ++ [Logged r])) <= S Transport.max_redirects * S retries
            /\ length (outcomes (t ++ [Logged r])) <= 1
            /\ forall url, url ∈ requests_of (t ++ [Logged r]) ->
                 may_request prepare_url net [link] url).
  { intros r. rewrite requests_of_app, outcomes_app, Ho. cbn [requests_of omap list_omap].
    rewrite app_nil_r. split; [done|]. split; [|done]. by destruct r; cbn; lia. }
  destruct res as [status|e].
  - destruct (status =? 200)%Z; run_M; rewrite <- app_assoc; eexists _, _;
      (split; [reflexivity | apply Hlog]).
  - destruct (is_RequestException e).
    + run_M. rewrite <- app_assoc. eexists _, _. split; [reflexivity | apply Hlog].
    + exists t, (Raise e). split; [done|]. split; [done|]. rewrite Ho. split; [cbn; lia | done].
Qed.

End BoundFacts.

(** X9.  A visit is bounded.  With [retries] retries, the visit of a list
    of links makes at most [retries + 1] requests for each link and for
    each redirect followed, of which there are at most 30 per link, and it
    reports at most one outcome per link; every URL requested is the
    prepared URL of a link of the list or the target of a redirect. *)
Theorem access_links_request_bound
    (prepare_url : string -> Result string) (net : Transport.Network)
    (retries : nat) (links : list string) (w : World) :
  exists t res,
    Transport.access_links prepare_url net (LinkHandler retries) links w = (res, w ++ t)
    /\ length (requests_of t) <= length links * (31 * S retries)
    /\ length (outcomes t) <= length links
    /\ forall url, url ∈ requests_of t -> may_request prepare_url net links url.
Proof.
  revert w. induction links as [|link rest IH]; intros w.
  - exists [], (Ok tt). run_M. cbn. rewrite app_nil_r. split; [done|].
    split; [lia|]. split; [lia|]. intros u Hu. by apply elem_of_nil in Hu.
  - cbn [Transport.access_links]. unfold mbind at 1, M_bind at 1, bind at 1.
    destruct (transport_access_link_bound prepare_url net retries link w)
      as (t1 & res1 & -> & Hlen1 & Ho1 & Hreq1).
    change (S Transport.max_redirects) with 31 in Hlen1.
    assert (Hwiden : forall ls u, may_request prepare_url net ls u ->
              forall l, may_request prepare_url net (l :: ls) u).
    { intros ls u [(l' & Hl & Hp)|H] l; [left | by right].
      exists l'. split; [by apply list_elem_of_further | done]. }
    assert (Hone : forall u, u ∈ requests_of t1 ->
              may_request prepare_url net (link :: rest) u).
    { intros u Hu. destruct (Hreq1 u Hu) as [(l' & Hl & Hp)|H]; [left | by right].
      apply list_elem_of_singleton in Hl as ->. exists link.
      split; [apply list_elem_of_here | done]. }
    destruct res1 as [[]|e].
    + destruct (IH (w ++ t1)) as (t2 & res2 & -> & Hlen2 & Ho2 & Hreq2).
      exists (t1 ++ t2), res2. rewrite <- app_assoc. split; [done|].
      rewrite requests_of_app, outcomes_app, !length_app. cbn [length].
      split; [lia|]. split; [lia|]. intros u Hu.
      apply elem_of_app in Hu as [Hu|Hu]; [by apply Hone | by apply Hwiden, Hreq2].
    + exists t1, (Raise e). split; [done|]. cbn [length]. split; [lia|]. split; [lia|].
      exact Hone.
Qed.

(** A redirect loop: every response sends on to the same URL.  The session
    follows 30 redirects, 31 requests in all, and gives up; the link is
    reported as an error. *)
Example access_links_redirect_loop :
  let round : Transport.Response :=
    {| Transport.status_code := 301;
       Transport.location := Some "http://x.com/unsubscribe";
       Transport.retry_after := false |} in
  let t := snd (Transport.access_links Ok (fun _ _ => Transport.Answers round)
                  (LinkHandler 3) ["http://x.com/unsubscribe"] []) in
  length (requests_of t) = 31
  /\ outcomes t = [("http://x.com/unsubscribe", NetworkFailure TooManyRedirects)].
Proof. split; reflexivity. Qed.




(** X12.  A link the session has no adapter for, or refuses to prepare, is
    not requested.  When the prepared URL starts with neither [http://] nor
    [https://], in any letter case, the link is reported with
    [InvalidSchema]; when the preparation raises a [RequestException], the
    link is reported with it.  In both cases no request is made and the
    visit goes on. *)
Theorem non_http_link_not_requested
    (prepare_url : string -> Result string) (net : Transport.Network)
    (retries : nat) (link : string) (rest : list string) (w : World) (e : exn) :
  (exists url, prepare_url link = Ok url /\ is_http url = false /\ e = InvalidSchema)
  \/ (prepare_url link = Raise e /\ is_RequestException e = true) ->
  Transport.access_links prepare_url net (LinkHandler retries) (link :: rest) w
  = Transport.access_links prepare_url net (LinkHandler retries) rest
      (w ++ [Logged (LogAccessError link e)]).
Proof.
  intros H. cbn [Transport.access_links].
  unfold mbind at 1, M_bind at 1, bind at 1.
  assert (Hone : Transport.access_link prepare_url net (LinkHandler retries) link w
                 = (Ok tt, w ++ [Logged (LogAccessError link e)])).
  { unfold Transport.access_link, Transport.session_get, try_except.
    unfold mbind at 1, M_bind at 1, bind at 1.
    unfold mbind at 1, M_bind at 1, bind at 1, lift at 1.
    destruct H as [(url & -> & Hh & ->)|[-> He]].
    - unfold mbind at 1, M_bind at 1, bind at 1. unfold Transport.send.
      unfold mbind at 1, M_bind at 1, bind at 1, lift at 1.
      rewrite get_adapter_LinkHandler, Hh. by run_M.
    - rewrite He. by run_M. }
  by rewrite Hone.
Qed.

Lemma non_http_link_not_requested_witness :
  let net : Transport.Network := fun _ _ => Transport.Answers (Transport.bare_response 200) in
  Transport.access_links Ok net (LinkHandler 3)
    ["mailto:unsubscribe@x.com"; "https://x.com/unsubscribe"] []
  = Transport.access_links Ok net (LinkHandler 3) ["https://x.com/unsubscribe"]
      ([] ++ [Logged (LogAccessError "mailto:unsubscribe@x.com" InvalidSchema)]).
Proof.
  intros net.
  apply (non_http_link_not_requested Ok net 3 "mailto:unsubscribe@x.com"
           ["https://x.com/unsubscribe"] [] InvalidSchema).
  left. exists "mailto:unsubscribe@x.com". by repeat split.
Defined.

(** A link with white space before the scheme: it is prepared, requested and
    reported under the link as written. *)
Example access_links_leading_space :
  let prepare_url (link : string) : Result string :=
    if String.eqb link " http://x.com/unsubscribe" then Ok "http://x.com/unsubscribe"
    else Ok link in
  let net : Transport.Network := fun _ _ => Transport.Answers (Transport.bare_response 200) in
  let t := snd (Transport.access_links prepare_url net (LinkHandler 3)
                  [" http://x.com/unsubscribe"] []) in
  is_http " http://x.com/unsubscribe" = false
  /\ requests_of t = ["http://x.com/unsubscribe"]
  /\ outcomes t = [(" http://x.com/unsubscribe", Success)].
Proof. repeat split. Qed.

(** ** The whole run, with the visit of [Transport] *)

Lemma transport_main_run (BeautifulSoup : markup -> PageElement) (env : Environment)
    (server : IMAP_server) (prepare_url : string -> Result string)
    (net : Transport.Network) (p : Process) :
  Run.main BeautifulSoup env server prepare_url net p
  = match _establish_email_connection env server p with
    | (Raise e, p1) => (Raise e, p1)
    | (Ok mail, p1) =>
        match in_M (find_unsubscribe_links BeautifulSoup mail) p1 with
        | (Raise e, p2) => (Raise e, p2)
        | (Ok [], p2) => (Ok tt, p2 ++ [inl LogNoLinks])
        | (Ok (link :: rest), p2) =>
            in_M (Transport.access_links prepare_url net (LinkHandler default_retries)
                    (link :: rest)) p2
        end
    end.
Proof.
  unfold Run.main, EmailProcessor_init. unfold mbind at 1, P_bind at 1.
  destruct (_establish_email_connection env server p) as [[mail|e] p1]; [|done].
  unfold mbind at 1, P_bind at 1.
  destruct (in_M (find_unsubscribe_links BeautifulSoup mail) p1) as [[[|link rest]|e] p2];
    done.
Qed.

(** X15.  When the connection is set up and the scan returns, [main] visits
    the links the scan found, in their order.  When it returns, every link
    found has exactly one outcome; when an exception that is no
    [RequestException] leaves the visit, [main] raises it, and the links
    before the one it came from have theirs.  [main] logs that no link was
    found when, and only when, the scan found none, and then it makes no
    request and returns. *)
Theorem main_visits_found_links
    (BeautifulSoup : markup -> PageElement) (env : Environment)
    (server : IMAP_server) (prepare_url : string -> Result string)
    (net : Transport.Network) (p : Process) (u : unit) (links : list string) :
  connection_result env server = Ok u ->
  fst (find_unsubscribe_links BeautifulSoup (mailbox_session server) []) = Ok links ->
  exists res t,
    Run.main BeautifulSoup env server prepare_url net p = (res, p ++ t)
    /\ match res with
       | Ok _ => map fst (outcomes (events_of t)) = links
       | Raise e =>
           is_RequestException e = false
           /\ exists visited culprit rest,
                links = visited ++ culprit :: rest
                /\ map fst (outcomes (events_of t)) = visited
       end
    /\ (inl LogNoLinks ∈ t <-> links = [])
    /\ (links = [] -> res = Ok tt /\ requests_of (events_of t) = []).
Proof.
  intros Hc Hs. rewrite transport_main_run.
  destruct (establish_succeeds env server p u Hc) as [-> Hq].
  set (st := connection_calls env ++ [inl LogConnected]) in *.
  rewrite scan_in_run, Hs.
  destruct (scan_events_quiet BeautifulSoup (mailbox_session server)) as (Hr & Ho & _).
  set (scan := IMAP_search :: body_trace BeautifulSoup (mailbox_session server)
               ++ logout_trace (mailbox_session server)) in *.
  assert (Hst : inl LogNoLinks ∉ st).
  { subst st. unfold connection_calls. intros H.
    repeat (apply elem_of_cons in H as [H|H]; [discriminate|]).
    by apply elem_of_nil in H. }
  destruct links as [|link rest].
  - exists (Ok tt), (st ++ map inr scan ++ [inl LogNoLinks]).
    rewrite <- !app_assoc. split; [done|].
    rewrite !events_of_app, events_of_inr, Hq. cbn [events_of omap list_omap app].
    rewrite app_nil_r, Ho, Hr. split; [done|]. split; [|done].
    split; [done|]. intros _. rewrite !elem_of_app. right. right.
    apply list_elem_of_here.
  - destruct (transport_access_links_run prepare_url net (LinkHandler default_retries)
                (link :: rest) (events_of ((p ++ st) ++ map inr scan)))
      as (t & res & Hrun & Hres & _).
    rewrite (in_M_run _ _ _ _ Hrun).
    exists res, (st ++ map inr scan ++ map inr t).
    rewrite <- !app_assoc. split; [done|].
    rewrite !events_of_app, !events_of_inr, Hq. cbn [app].
    rewrite outcomes_app, Ho. cbn [app]. split.
    + destruct res as [[]|e]; [done|].
      destruct Hres as (He & visited & culprit & rest' & Hl & Hv & _).
      split; [done|]. by exists visited, culprit, rest'.
    + split; [|done]. split; [|done]. rewrite !elem_of_app. intros [H|[H|H]].
      * done.
      * by apply not_in_events in H.
      * by apply not_in_events in H.
Qed.

Lemma main_visits_found_links_witness :
  exists res t,
    Run.main one_anchor {| EMAIL_USERNAME := Some "me"; EMAIL_PASSWORD := Some "secret" |}
      {| connect := fun _ => Ok tt;
         login := fun _ _ => Ok tt;
         select := fun _ => Ok tt;
         mailbox_session :=
           {| search := Ok ["1"; "2"];
              fetch := fun i => if String.eqb i "1" then None
                                else Some (Leaf (Some "text/html") 1 []);
              logout := Ok tt |} |}
      Ok (fun _ _ => Transport.Breaks LocationParseError) []
    = (res, [] ++ t)
    /\ match res with
       | Ok _ => map fst (outcomes (events_of t)) = ["https://x.com/unsubscribe?u=1"]
       | Raise e =>
           is_RequestException e = false
           /\ exists visited culprit rest,
                ["https://x.com/unsubscribe?u=1"] = visited ++ culprit :: rest
                /\ map fst (outcomes (events_of t)) = visited
       end
    /\ (inl LogNoLinks ∈ t <-> ["https://x.com/unsubscribe?u=1"] = [])
    /\ (["https://x.com/unsubscribe?u=1"] = [] ->
        res = Ok tt /\ requests_of (events_of t) = []).
Proof.
  apply (main_visits_found_links one_anchor
           {| EMAIL_USERNAME := Some "me"; EMAIL_PASSWORD := Some "secret" |}
           {| connect := fun _ => Ok tt;
              login := fun _ _ => Ok tt;
              select := fun _ => Ok tt;
              mailbox_session :=
                {| search := Ok ["1"; "2"];
                   fetch := fun i => if String.eqb i "1" then None
                                     else Some (Leaf (Some "text/html") 1 []);
                   logout := Ok tt |} |}
           Ok (fun _ _ => Transport.Breaks LocationParseError) [] tt
           ["https://x.com/unsubscribe?u=1"]);
    reflexivity.
Defined.

(** The same run, computed: the only link found cannot be requested, [main]
    raises and reports no outcome. *)
Example main_raises_in_visit :
  let run :=
    Run.main one_anchor {| EMAIL_USERNAME := Some "me"; EMAIL_PASSWORD := Some "secret" |}
      {| connect := fun _ => Ok tt;
         login := fun _ _ => Ok tt;
         select := fun _ => Ok tt;
         mailbox_session :=
           {| search := Ok ["1"; "2"];
              fetch := fun i => if String.eqb i "1" then None
                                else Some (Leaf (Some "text/html") 1 []);
              logout := Ok tt |} |}
      Ok (fun _ _ => Transport.Breaks LocationParseError) [] in
  fst run = Raise LocationParseError
  /\ requests_of (events_of (snd run)) = ["https://x.com/unsubscribe?u=1"]
  /\ outcomes (events_of (snd run)) = [].
Proof. repeat split. Qed.
